(** * Cloud Pub/Sub connector (apache_beam/io/gcp/pubsub.py)

    A shallow embedding of the connector's message type, its protobuf
    encode/decode, the topic and subscription name parsers, the source
    configuration, the read and write transforms and the multi-source
    reader, followed by the properties established about them.

    Conventions.
    - A Python [str] is a Rocq [string]; a Python [bytes] is a [list byte].
      A non-ASCII [str] is read as its UTF-8 bytes: the character classes of
      the three regular expressions of the module only single out ASCII
      characters, so matching on bytes and on code points agree.
    - [None] is the [None] of an [option]; a dict of str to str is a
      [gmap string string].
    - A raised exception is the [Err] of [result]. *)

From Stdlib Require Import Strings.Ascii Strings.String Strings.Byte.
From stdpp Require Import base option list strings gmap.

Local Open Scope string_scope.
Local Open Scope nat_scope.
Local Open Scope list_scope.

(** ** Python values *)

Abbreviation bytes := (list byte).

#[global] Instance byte_eq_decision : EqDecision byte := Byte.byte_eq_dec.

(** Instances of [PubsubMessage]: the two attributes set by [__init__]. *)
Record PubsubMessage_obj := mkPubsubMessage {
  data : option bytes;
  attributes : option (gmap string string)
}.

(** The Python values that can flow through a PCollection here. *)
Inductive pyval :=
  | PyNone
  | PyBytes (b : bytes)
  | PyStr (s : string)
  | PyInt (z : Z)
  | PyMessage (m : PubsubMessage_obj)
  | PyTuple (a b : pyval).

(** [type(element)]. *)
Inductive pytype :=
  | NoneType | bytes_type | str_type | int_type | PubsubMessage_type | tuple_type.

Definition type (v : pyval) : pytype :=
  match v with
  | PyNone => NoneType
  | PyBytes _ => bytes_type
  | PyStr _ => str_type
  | PyInt _ => int_type
  | PyMessage _ => PubsubMessage_type
  | PyTuple _ _ => tuple_type
  end.

(** [isinstance(element, PubsubMessage)]. *)
Definition isinstance_PubsubMessage (v : pyval) : bool :=
  match v with PyMessage _ => true | _ => false end.

(** ** Exceptions

    One constructor per [raise] of the module (and per exception of the
    libraries it calls), carrying the values its message is formatted with. *)
Inductive error :=
  (* PubsubMessage.__init__: 'Either data (%r) or attributes (%r) must be set.' *)
  | ValueError_payload (d : option bytes) (a : option (gmap string string))
  (* protobuf, on [msg.data = None] *)
  | TypeError_bytes_field
  (* [iteritems(None)] *)
  | AttributeError_items
  (* protobuf, [ParseFromString] on bytes that are no message *)
  | DecodeError
  (* WriteToPubSub.to_proto_str:
     'Unexpected element. Type: %s (expected: PubsubMessage), value: %r' *)
  | TypeError_unexpected_element (ty : pytype) (value : pyval)
  (* parse_topic: 'PubSub topic must be in the form ... (got %r).' *)
  | ValueError_topic_form (got : string)
  (* parse_subscription: 'PubSub subscription must be in the form ... (got %r).' *)
  | ValueError_subscription_form (got : string)
  (* 'Invalid PubSub project name: %r.' *)
  | ValueError_project_name (project : string)
  (* 'Either a topic or subscription must be provided.' *)
  | ValueError_no_address
  (* 'Only one of topic or subscription should be provided.' *)
  | ValueError_two_addresses
  (* 'Length of "id_label" (%d) is not the same as length of "sources" (%d)' *)
  | ValueError_id_label_length (len total : nat)
  (* 'Length of "timestamp_attribute" (%d) is not the same as ... (%d)' *)
  | ValueError_timestamp_attribute_length (len total : nat)
  (* 'PubSub source must be in the form ... (got %r).' *)
  | ValueError_source_form (got : string)
  (* 'Topics and subscriptions should be in "source_list". Found topic %s' *)
  | ValueError_topic_kwarg (found : string)
  (* 'Subscriptions and topics should be in "source_list". Found subscription %s' *)
  | ValueError_subscription_kwarg (found : string)
  (* ReadFromPubSub called with a keyword argument it does not have *)
  | TypeError_unexpected_keyword (key : string)
  (* [source_split[i]] out of range *)
  | IndexError
  (* the pipeline, on a step name that is in use:
     'A transform with label "%s" already exists in the pipeline.' *)
  | RuntimeError_label (label : string)
  (* [tuple() | Flatten()]: nothing to apply the transform to *)
  | ValueError_no_inputs
  (* a closure called while the variable it reads is unbound *)
  | NameError_free_variable (name : string).

(** The error taxonomy of the design document. *)
Inductive error_kind :=
  | UsageError | MalformedPayload | TypeMismatch
  | InvalidFormat | InvalidProjectId | MissingAddress | ConflictingAddress
  | ParameterCountMismatch | InvalidSource | AmbiguousConfiguration
  | OtherError.

Definition kind (e : error) : error_kind :=
  match e with
  | ValueError_payload _ _ => UsageError
  | DecodeError => MalformedPayload
  | TypeError_unexpected_element _ _ => TypeMismatch
  | ValueError_topic_form _ | ValueError_subscription_form _ => InvalidFormat
  | ValueError_project_name _ => InvalidProjectId
  | ValueError_no_address => MissingAddress
  | ValueError_two_addresses => ConflictingAddress
  | ValueError_id_label_length _ _
  | ValueError_timestamp_attribute_length _ _ => ParameterCountMismatch
  | ValueError_source_form _ => InvalidSource
  | ValueError_topic_kwarg _ | ValueError_subscription_kwarg _ =>
      AmbiguousConfiguration
  | TypeError_bytes_field | AttributeError_items
  | TypeError_unexpected_keyword _ | IndexError
  | RuntimeError_label _ | ValueError_no_inputs
  | NameError_free_variable _ => OtherError
  end.

Inductive result (A : Type) :=
  | Ok (a : A)
  | Err (e : error).
Arguments Ok {A} a.
Arguments Err {A} e.

(** Sequencing: the first exception raised ends the computation. The
    [x ← r; k] notation below is stdpp's, through these instances. *)
#[global] Instance result_ret : MRet result := fun A a => Ok a.
#[global] Instance result_bind : MBind result := fun A B k r =>
  match r with
  | Ok a => k a
  | Err e => Err e
  end.
#[global] Instance result_fmap : FMap result := fun A B f r =>
  match r with
  | Ok a => Ok (f a)
  | Err e => Err e
  end.

(** ** The fragment of [re] the module uses

    The three patterns are sequences of literals, single character classes
    and greedy repetitions of a character class, two of them captured.
    [re.match] anchors at the start of the string only, and tries the
    repetition counts from the longest down (backtracking). *)
Module re.

Inductive node :=
  | Lit (l : string)                                  (* literal text *)
  | Set1 (c : ascii -> bool)                          (* [...] once *)
  | Rep (c : ascii -> bool) (lo : nat) (hi : option nat)  (* [...]{lo,hi} *)
  | Cap (c : ascii -> bool) (lo : nat) (hi : option nat). (* ([...]{lo,hi}) *)

(** Number of leading characters of [s] in the class [c]. *)
Fixpoint run (c : ascii -> bool) (s : list ascii) : nat :=
  match s with
  | a :: s' => if c a then S (run c s') else 0
  | [] => 0
  end.

(** The longest repetition the class allows at the head of [s]. *)
Definition reach (c : ascii -> bool) (hi : option nat) (s : list ascii) : nat :=
  match hi with
  | Some h => Nat.min h (run c s)
  | None => run c s
  end.

(** Try the counts [n], [n-1], ..., [lo] in that order; first success wins. *)
Fixpoint try_down {A} (f : nat -> option A) (lo n : nat) : option A :=
  if n <? lo then None
  else match f n with
       | Some r => Some r
       | None => match n with
                 | 0 => None
                 | S n' => try_down f lo n'
                 end
       end.

Fixpoint strip_prefix (l s : list ascii) : option (list ascii) :=
  match l, s with
  | [], _ => Some s
  | a :: l', b :: s' => if Ascii.eqb a b then strip_prefix l' s' else None
  | _ :: _, [] => None
  end.

(** [match_at r s]: the captured groups of the match of [r] at the start
    of [s], or [None]. *)
Fixpoint match_at (r : list node) (s : list ascii) : option (list (list ascii)) :=
  match r with
  | [] => Some []
  | Lit l :: r' =>
      match strip_prefix (list_ascii_of_string l) s with
      | Some s' => match_at r' s'
      | None => None
      end
  | Set1 c :: r' =>
      match s with
      | a :: s' => if c a then match_at r' s' else None
      | [] => None
      end
  | Rep c lo hi :: r' =>
      try_down (fun k => match_at r' (drop k s)) lo (reach c hi s)
  | Cap c lo hi :: r' =>
      try_down (fun k => cons (take k s) <$> match_at r' (drop k s))
               lo (reach c hi s)
  end.

(** [re.match(pattern, string)]; the groups as strings. *)
Definition match_ (r : list node) (s : string) : option (list string) :=
  map string_of_list_ascii <$> match_at r (list_ascii_of_string s).

(** Character classes. *)
Definition between (lo hi c : ascii) : bool :=
  (nat_of_ascii lo <=? nat_of_ascii c) && (nat_of_ascii c <=? nat_of_ascii hi).

(* [a-z] *)
Definition lower (c : ascii) : bool := between "a" "z" c.
(* [a-z0-9] *)
Definition lower_digit (c : ascii) : bool := between "a" "z" c || between "0" "9" c.
(* [-a-z0-9:.] *)
Definition project_char (c : ascii) : bool :=
  Ascii.eqb c "-" || between "a" "z" c || between "0" "9" c
  || Ascii.eqb c ":" || Ascii.eqb c ".".
(* [^/] *)
Definition not_slash (c : ascii) : bool := negb (Ascii.eqb c "/").
(* . (no DOTALL flag: any character but the line feed) *)
Definition dot (c : ascii) : bool := negb (Ascii.eqb c "010").

(** The shape of the two address patterns below, which differ in the
    literal between the groups. *)
Definition address_pattern (mid : string) : list node :=
  [Lit "projects/"; Cap not_slash 1 None; Lit mid; Cap dot 1 None].

End re.

(** ** Resource names *)

(* PROJECT_ID_REGEXP = '[a-z][-a-z0-9:.]{4,61}[a-z0-9]' *)
Definition PROJECT_ID_REGEXP : list re.node :=
  [re.Set1 re.lower; re.Rep re.project_char 4 (Some 61); re.Set1 re.lower_digit].

(* SUBSCRIPTION_REGEXP = 'projects/([^/]+)/subscriptions/(.+)' *)
Definition SUBSCRIPTION_REGEXP : list re.node :=
  [re.Lit "projects/"; re.Cap re.not_slash 1 None;
   re.Lit "/subscriptions/"; re.Cap re.dot 1 None].

(* TOPIC_REGEXP = 'projects/([^/]+)/topics/(.+)' *)
Definition TOPIC_REGEXP : list re.node :=
  [re.Lit "projects/"; re.Cap re.not_slash 1 None;
   re.Lit "/topics/"; re.Cap re.dot 1 None].

Definition parse_topic (full_topic : string) : result (string * string) :=
  match re.match_ TOPIC_REGEXP full_topic with
  | Some [project; topic_name] =>
      match re.match_ PROJECT_ID_REGEXP project with
      | Some _ => Ok (project, topic_name)
      | None => Err (ValueError_project_name project)
      end
  | _ => Err (ValueError_topic_form full_topic)
  end.

Definition parse_subscription (full_subscription : string) : result (string * string) :=
  match re.match_ SUBSCRIPTION_REGEXP full_subscription with
  | Some [project; subscription_name] =>
      match re.match_ PROJECT_ID_REGEXP project with
      | Some _ => Ok (project, subscription_name)
      | None => Err (ValueError_project_name project)
      end
  | _ => Err (ValueError_subscription_form full_subscription)
  end.

(** [c] does not occur in [s]. *)
Definition no_char (c : ascii) (s : string) : Prop :=
  Forall (fun a => a <> c) (list_ascii_of_string s).

(** The project-id grammar as the design document words it: a lowercase
    letter, then 4 to 61 characters among lowercase letters, digits, '-',
    ':' and '.', then a lowercase letter or a digit, and nothing after it. *)
Definition project_id_grammar (p : string) : bool :=
  match list_ascii_of_string p with
  | first :: tl =>
      match reverse tl with
      | last :: middle =>
          re.lower first
          && forallb re.project_char middle
          && (4 <=? length middle) && (length middle <=? 61)
          && re.lower_digit last
      | [] => false
      end
  | [] => false
  end.

(** What [re.match] with an address pattern accepts, spelled out: the
    string starts with "projects/", a non-empty run of characters other than
    '/', the literal [mid], and one character other than the line feed. *)
Definition address_shaped (mid s : string) : Prop :=
  exists project c rest,
    s = "projects/" +:+ project +:+ mid +:+ String c rest /\
    project <> "" /\ no_char "/" project /\ c <> "010"%char.

(** ** The protobuf message [pubsub.types.pubsub_pb2.PubsubMessage]

    The protobuf runtime is a library the module calls. It is modelled by
    the proto3 wire format of the two fields the module reads and writes,
    [bytes data = 1] and [map<string, string> attributes = 2]: a message is
    a sequence of fields, each a varint tag [8 * number + wire_type]
    followed by its body; a map entry is a nested message with the key as
    field 1 and the value as field 2. Fields of other numbers are skipped
    when parsing. A [str] is carried as the bytes of its UTF-8 encoding.

    The parser below is the wire format read back: it agrees with the
    runtime on the bytes that [SerializeToString] writes, which is what the
    statements about decoding use it for. On other bytes the runtime
    decides for itself and the parser below does not follow it: the runtime
    skips a group (wire types 3 and 4), where [read_field] gives up; it
    refuses a varint of more than ten bytes, where [decode_varint] reads on;
    and it refuses a key or a value that is no UTF-8, with an exception of
    its own, where [merge_entry_field] takes the bytes as they are. *)
Module pubsub_pb2.

Definition byte_of_nat (n : nat) : byte := byte_of_ascii (ascii_of_nat n).
Definition nat_of_byte (b : byte) : nat := nat_of_ascii (ascii_of_byte b).

(** Base-128 varint, least significant group first. *)
Fixpoint encode_varint_fuel (fuel n : nat) : bytes :=
  match fuel with
  | 0 => []
  | S fuel' =>
      if n <? 128 then [byte_of_nat n]
      else byte_of_nat (128 + n mod 128) :: encode_varint_fuel fuel' (n / 128)
  end.

Definition encode_varint (n : nat) : bytes := encode_varint_fuel (S n) n.

Fixpoint decode_varint (bs : bytes) : option (nat * bytes) :=
  match bs with
  | [] => None
  | b :: bs' =>
      let v := nat_of_byte b in
      if v <? 128 then Some (v, bs')
      else '(hi, rest) ← decode_varint bs'; Some (v - 128 + 128 * hi, rest)
  end.

Inductive wire_value :=
  | Varint (n : nat)
  | Fixed64 (b : bytes)
  | LengthDelimited (b : bytes)
  | Fixed32 (b : bytes).

Definition wire_type (v : wire_value) : nat :=
  match v with
  | Varint _ => 0
  | Fixed64 _ => 1
  | LengthDelimited _ => 2
  | Fixed32 _ => 5
  end.

Definition write_field (f : nat * wire_value) : bytes :=
  encode_varint (8 * f.1 + wire_type f.2) ++
  match f.2 with
  | Varint n => encode_varint n
  | Fixed64 b | Fixed32 b => b
  | LengthDelimited b => encode_varint (length b) ++ b
  end.

Definition read_field (bs : bytes) : option (nat * wire_value * bytes) :=
  '(tag, bs1) ← decode_varint bs;
  let number := tag / 8 in
  if number =? 0 then None
  else match tag mod 8 with
       | 0 => '(n, bs2) ← decode_varint bs1; Some (number, Varint n, bs2)
       | 1 => if length bs1 <? 8 then None
              else Some (number, Fixed64 (take 8 bs1), drop 8 bs1)
       | 2 => '(len, bs2) ← decode_varint bs1;
              if length bs2 <? len then None
              else Some (number, LengthDelimited (take len bs2), drop len bs2)
       | 5 => if length bs1 <? 4 then None
              else Some (number, Fixed32 (take 4 bs1), drop 4 bs1)
       | _ => None
       end.

(** Every field takes at least one byte, so [length bs] rounds suffice. *)
Fixpoint read_fields_fuel (fuel : nat) (bs : bytes) : option (list (nat * wire_value)) :=
  match bs with
  | [] => Some []
  | _ :: _ =>
      match fuel with
      | 0 => None
      | S fuel' =>
          '(number, v, rest) ← read_field bs;
          fs ← read_fields_fuel fuel' rest;
          Some ((number, v) :: fs)
      end
  end.

Definition read_fields (bs : bytes) : option (list (nat * wire_value)) :=
  read_fields_fuel (length bs) bs.

Record PubsubMessage := mk {
  data : bytes;
  attributes : gmap string string
}.

(** [PubsubMessage()]: every field at its default. *)
Definition new : PubsubMessage := {| data := []; attributes := ∅ |}.

(** [msg.data = d] and [msg.attributes[key] = value]. *)
Definition set_data (msg : PubsubMessage) (d : bytes) : PubsubMessage :=
  {| data := d; attributes := attributes msg |}.
Definition set_attribute (msg : PubsubMessage) (key value : string) : PubsubMessage :=
  {| data := data msg; attributes := <[key := value]> (attributes msg) |}.

Definition write_entry (e : string * string) : nat * wire_value :=
  (2, LengthDelimited
        (write_field (1, LengthDelimited (list_byte_of_string e.1)) ++
         write_field (2, LengthDelimited (list_byte_of_string e.2)))).

(** A field at its default (empty [data]) is not written. *)
Definition SerializeToString (msg : PubsubMessage) : bytes :=
  (match data msg with
   | [] => []
   | _ :: _ => write_field (1, LengthDelimited (data msg))
   end) ++
  mjoin (map (fun e => write_field (write_entry e)) (map_to_list (attributes msg))).

Definition merge_entry_field (e : string * string) (f : nat * wire_value)
  : string * string :=
  match f with
  | (1, LengthDelimited b) => (string_of_list_byte b, e.2)
  | (2, LengthDelimited b) => (e.1, string_of_list_byte b)
  | _ => e
  end.

Definition parse_entry (b : bytes) : option (string * string) :=
  fs ← read_fields b; Some (foldl merge_entry_field ("", "") fs).

(** A repeated scalar field keeps its last value; a repeated map key too. *)
Fixpoint merge_fields (msg : PubsubMessage) (fs : list (nat * wire_value))
  : option PubsubMessage :=
  match fs with
  | [] => Some msg
  | (1, LengthDelimited b) :: fs' => merge_fields (set_data msg b) fs'
  | (2, LengthDelimited b) :: fs' =>
      '(key, value) ← parse_entry b;
      merge_fields (set_attribute msg key value) fs'
  | _ :: fs' => merge_fields msg fs'
  end.

(** [msg.ParseFromString(s)] on a fresh message; [None] is a [DecodeError]. *)
Definition ParseFromString (s : bytes) : option PubsubMessage :=
  fs ← read_fields s; merge_fields new fs.

(** Length-delimited fields with a field number other than 0. *)
Definition delimited (f : nat * wire_value) : Prop :=
  f.1 <> 0 /\ exists b, f.2 = LengthDelimited b.

End pubsub_pb2.

(** ** class PubsubMessage *)
Module PubsubMessage.

(** Truth value of [attributes]: [None] and the empty dict are false. *)
Definition truthy_dict (a : option (gmap string string)) : bool :=
  match a with
  | Some m => negb (bool_decide (m = ∅))
  | None => false
  end.

Definition __init__ (d : option bytes) (a : option (gmap string string))
  : result PubsubMessage_obj :=
  if bool_decide (d = None) && negb (truthy_dict a)
  then Err (ValueError_payload d a)
  else Ok (mkPubsubMessage d a).

Definition __eq__ (self : PubsubMessage_obj) (other : pyval) : bool :=
  match other with
  | PyMessage o =>
      bool_decide (data self = data o)
      && bool_decide (attributes self = attributes o)
  | _ => false
  end.

Definition _from_proto_str (proto_msg : bytes) : result PubsubMessage_obj :=
  match pubsub_pb2.ParseFromString proto_msg with
  | None => Err DecodeError
  | Some msg =>
      (* Convert ScalarMapContainer to dict. *)
      let attributes : gmap string string :=
        list_to_map (map_to_list (pubsub_pb2.attributes msg)) in
      __init__ (Some (pubsub_pb2.data msg)) (Some attributes)
  end.

(** [_to_proto_str]. The loop over [iteritems(self.attributes)] sets the
    entries in the order of the dict, and the serializer writes them in an
    order of its own; [map_to_list] is one order. The bytes written for two
    or more attributes are therefore one of the possible encodings; the
    parser merges the entries whatever their order. *)
Definition _to_proto_str (self : PubsubMessage_obj) : result bytes :=
  let msg := pubsub_pb2.new in
  msg ← match data self with
        | Some d => Ok (pubsub_pb2.set_data msg d)
        | None => Err TypeError_bytes_field
        end;
  items ← match attributes self with
          | Some a => Ok (map_to_list a)
          | None => Err AttributeError_items
          end;
  let msg := foldl (fun msg kv => pubsub_pb2.set_attribute msg kv.1 kv.2) msg items in
  Ok (pubsub_pb2.SerializeToString msg).

(** [_from_message(msg)]: [msg] is a message of the subscriber client, with
    a [data] of bytes and an [attributes] map, as the protobuf message has. *)
Definition _from_message (msg : pubsub_pb2.PubsubMessage) : result PubsubMessage_obj :=
  (* Convert ScalarMapContainer to dict. *)
  let attributes : gmap string string :=
    list_to_map (map_to_list (pubsub_pb2.attributes msg)) in
  __init__ (Some (pubsub_pb2.data msg)) (Some attributes).

End PubsubMessage.

(** ** Pipeline primitives

    A PCollection is the list of the outcomes of its elements: an element
    the upstream step produced, or the exception that step raised on it. *)
Abbreviation PCollection := (list (result pyval)).

(** Modelled from the spec: [apache_beam.transforms.Map], which is not part
    of this module. [pcoll | Map(fn)] applies [fn] to every element of
    [pcoll] when the pipeline runs; an element on which an earlier step
    failed stays failed. *)
Definition Map (fn : pyval -> result pyval) (pcoll : PCollection) : PCollection :=
  map (fun r => r ≫= fn) pcoll.

(** Modelled from the spec: [apache_beam.transforms.Flatten], which is not
    part of this module: the union of the given PCollections. The order
    across the inputs is not specified; the list below is one such order.
    [tuple(pcolls) | Flatten()] on an empty tuple has nothing to apply the
    transform to, and raises. *)
Definition Flatten (pcolls : list PCollection) : result PCollection :=
  match pcolls with
  | [] => Err ValueError_no_inputs
  | _ :: _ => Ok (mjoin pcolls)
  end.

(** Modelled from the spec: [pcoll | label >> transform], the application of
    a transform under a step name, by [apache_beam.pipeline], which is not
    part of this module. [applied] holds the step names in use inside the
    enclosing transform; a name that is in use is refused. *)
Definition apply_label (applied : list string) (label : string)
  : result (list string) :=
  if bool_decide (label ∈ applied)
  then Err (RuntimeError_label label)
  else Ok (label :: applied).

(** [if s:] on an [Optional[str]]: the string, when it is neither [None]
    nor the empty string. *)
Definition if_str (s : option string) : option string :=
  match s with
  | Some t => if String.eqb t "" then None else Some t
  | None => None
  end.

Definition truthy (s : option string) : bool :=
  match if_str s with Some _ => true | None => false end.

(** ** class _PubSubSource *)
Module _PubSubSource.

(** [project] is an attribute that only the two parsing branches set. *)
Record t := mk {
  full_topic : option string;
  full_subscription : option string;
  topic_name : option string;
  subscription_name : option string;
  id_label : option string;
  with_attributes : bool;
  timestamp_attribute : option string;
  project : option string
}.

Definition set_topic (self : t) (p n : string) : t :=
  mk (full_topic self) (full_subscription self) (Some n) (subscription_name self)
     (id_label self) (with_attributes self) (timestamp_attribute self) (Some p).

Definition set_subscription (self : t) (p n : string) : t :=
  mk (full_topic self) (full_subscription self) (topic_name self) (Some n)
     (id_label self) (with_attributes self) (timestamp_attribute self) (Some p).

Definition __init__ (topic subscription id_label : option string)
    (with_attributes : bool) (timestamp_attribute : option string) : result t :=
  let self := mk topic subscription None None
                 id_label with_attributes timestamp_attribute None in
  (* Perform some validation on the topic and subscription. *)
  if negb (truthy topic || truthy subscription) then Err ValueError_no_address
  else if truthy topic && truthy subscription then Err ValueError_two_addresses
  else
    self ← match if_str topic with
           | Some topic => '(p, n) ← parse_topic topic; Ok (set_topic self p n)
           | None => Ok self
           end;
    match if_str subscription with
    | Some subscription =>
        '(p, n) ← parse_subscription subscription; Ok (set_subscription self p n)
    | None => Ok self
    end.

(** [is_bounded]. *)
Definition is_bounded (self : t) : bool := false.

End _PubSubSource.

(** ** class _PubSubSink *)
Module _PubSubSink.

Record t := mk {
  full_topic : string;
  id_label : option string;
  with_attributes : bool;
  timestamp_attribute : option string;
  project : string;
  topic_name : string
}.

Definition __init__ (topic : string) (id_label : option string)
    (with_attributes : bool) (timestamp_attribute : option string) : result t :=
  '(p, n) ← parse_topic topic;
  Ok (mk topic id_label with_attributes timestamp_attribute p n).

End _PubSubSink.

(** ** The payload message of [beam_runner_api_pb2]

    Modelled from the spec: [beam_runner_api_pb2.PubSubReadPayload], the
    portable payload of the read transform, a class generated from the
    pipeline's protobuf definitions and not part of this module. Its fields
    are the keywords the module passes to it. As in every protobuf message, a
    string field holds a [str], never [None]: a keyword argument given as
    [None] to the constructor leaves the field at its default, the empty
    string. *)
Module beam_runner_api_pb2.

Record PubSubReadPayload := mkRead {
  topic : string;
  subscription : string;
  timestamp_attribute : string;
  id_attribute : string;
  with_attributes : bool;
  serialized_attribute_fn : string
}.

Definition str_field (arg : option string) : string := default "" arg.

Definition new_PubSubReadPayload
    (topic subscription timestamp_attribute id_attribute : option string)
    (with_attributes : bool) (serialized_attribute_fn : option string)
  : PubSubReadPayload :=
  mkRead (str_field topic) (str_field subscription)
         (str_field timestamp_attribute) (str_field id_attribute)
         with_attributes (str_field serialized_attribute_fn).

End beam_runner_api_pb2.

(** ** class ReadFromPubSub *)
Module ReadFromPubSub.

Record t := mk {
  with_attributes : bool;
  _source : _PubSubSource.t
}.

Definition __init__ (topic subscription id_label : option string)
    (with_attributes : bool) (timestamp_attribute : option string) : result t :=
  source ← _PubSubSource.__init__ topic subscription id_label
             with_attributes timestamp_attribute;
  Ok (mk with_attributes source).

Section expand.
(** Modelled from the spec: [Read(source)], the read primitive, which is not
    part of this module: the raw byte elements that the native Pub/Sub
    reader of the runner delivers for a source. *)
Variable Read : _PubSubSource.t -> list bytes.

Definition expand (self : t) : PCollection :=
  let pcoll : PCollection := map (fun b => Ok (PyBytes b)) (Read (_source self)) in
  if with_attributes self
  then Map (fun e => match e with
                     | PyBytes b => PyMessage <$> PubsubMessage._from_proto_str b
                     | _ => Err DecodeError
                     end) pcoll
  else pcoll.
End expand.

Definition _pubsub_read_payload (self : t) : beam_runner_api_pb2.PubSubReadPayload :=
  beam_runner_api_pb2.new_PubSubReadPayload
    (_PubSubSource.full_topic (_source self))
    (_PubSubSource.full_subscription (_source self))
    (_PubSubSource.timestamp_attribute (_source self))
    (_PubSubSource.id_label (_source self))
    (with_attributes self)
    (Some "").

Definition from_runner_api_parameter
    (pubsub_read_payload : beam_runner_api_pb2.PubSubReadPayload) : result t :=
  __init__ (Some (beam_runner_api_pb2.topic pubsub_read_payload))
           (Some (beam_runner_api_pb2.subscription pubsub_read_payload))
           (Some (beam_runner_api_pb2.id_attribute pubsub_read_payload))
           (beam_runner_api_pb2.with_attributes pubsub_read_payload)
           (Some (beam_runner_api_pb2.timestamp_attribute pubsub_read_payload)).

End ReadFromPubSub.

(** Modelled from the spec: [beam_runner_api_pb2.PubSubWritePayload], the
    portable payload of the write transform, a class generated from the
    pipeline's protobuf definitions and not part of this module. Its fields
    are the keywords the module passes to it and the [coder_id] it assigns;
    string fields hold a [str], never [None], as in [PubSubReadPayload]. *)
Module PubSubWritePayload.

Record t := mk {
  topic : string;
  timestamp_attribute : string;
  id_attribute : string;
  with_attributes : bool;
  serialized_attribute_fn : string;
  coder_id : string
}.

Definition new (topic timestamp_attribute id_attribute : option string)
    (with_attributes : bool) (serialized_attribute_fn : option string) : t :=
  mk (beam_runner_api_pb2.str_field topic)
     (beam_runner_api_pb2.str_field timestamp_attribute)
     (beam_runner_api_pb2.str_field id_attribute)
     with_attributes
     (beam_runner_api_pb2.str_field serialized_attribute_fn)
     "".

(** [payload.coder_id = id] *)
Definition set_coder_id (payload : t) (id : string) : t :=
  mk (topic payload) (timestamp_attribute payload) (id_attribute payload)
     (with_attributes payload) (serialized_attribute_fn payload) id.

End PubSubWritePayload.

(** ** class WriteToPubSub *)
Module WriteToPubSub.

Record t := mk {
  with_attributes : bool;
  id_label : option string;
  timestamp_attribute : option string;
  _sink : _PubSubSink.t
}.

Definition __init__ (topic : string) (with_attributes : bool)
    (id_label timestamp_attribute : option string) : result t :=
  sink ← _PubSubSink.__init__ topic id_label with_attributes timestamp_attribute;
  Ok (mk with_attributes id_label timestamp_attribute sink).

Definition to_proto_str (element : pyval) : result bytes :=
  match element with
  | PyMessage m => PubsubMessage._to_proto_str m
  | _ => Err (TypeError_unexpected_element (type element) element)
  end.

(** The PCollection handed to [Write(self._sink)]. *)
Definition expand (self : t) (pcoll : PCollection) : PCollection :=
  if with_attributes self
  then Map (fun element => PyBytes <$> to_proto_str element) pcoll
  else pcoll.

Definition _pubsub_write_payload (self : t) : PubSubWritePayload.t :=
  PubSubWritePayload.new
    (Some (_PubSubSink.full_topic (_sink self)))
    (_PubSubSink.timestamp_attribute (_sink self))
    (_PubSubSink.id_label (_sink self))
    (with_attributes self)
    (Some "").

(** [to_runner_api_parameter(context)], without the URN it is paired with;
    [sink_coder_id] is what [context.coders.get_id(sink_coder)] returns. *)
Definition to_runner_api_parameter (self : t) (sink_coder_id : string)
  : PubSubWritePayload.t :=
  let payload := _pubsub_write_payload self in
  PubSubWritePayload.set_coder_id payload sink_coder_id.

Definition from_runner_api_parameter
    (pubsub_write_payload : PubSubWritePayload.t) : result t :=
  __init__ (PubSubWritePayload.topic pubsub_write_payload)
           (PubSubWritePayload.with_attributes pubsub_write_payload)
           (Some (PubSubWritePayload.id_attribute pubsub_write_payload))
           (Some (PubSubWritePayload.timestamp_attribute pubsub_write_payload)).

End WriteToPubSub.

(** ** class MultipleReadFromPubSub *)

(** [s.split(sep)] for a separator of one character. *)
Fixpoint split (sep : ascii) (s : string) : list string :=
  match s with
  | EmptyString => [""]
  | String c s' =>
      if Ascii.eqb c sep then "" :: split sep s'
      else match split sep s' with
           | hd :: tl => String c hd :: tl
           | [] => [String c ""]
           end
  end.

(** [l[i]] for [i >= 0], and [l[-1]]. *)
Definition index {A} (l : list A) (i : nat) : result A :=
  match l !! i with
  | Some x => Ok x
  | None => Err IndexError
  end.

Definition index_last {A} (l : list A) : result A :=
  match last l with
  | Some x => Ok x
  | None => Err IndexError
  end.

(** An [Optional[Union[List[str], str]]] argument. *)
Inductive str_or_list :=
  | Scalar (v : option string)
  | PerSource (l : list string).

Module MultipleReadFromPubSub.

Record t := mk {
  source_list : list string;
  with_context : bool;
  with_attributes : bool;
  _kwargs : gmap string string;
  _total_sources : nat;
  id_label : list (option string);
  timestamp_attribute : list (option string)
}.

Definition matched (m : option (list string)) : bool :=
  match m with Some _ => true | None => false end.

(** The loop over [self.source_list] of [__init__]. *)
Fixpoint check_sources (sources : list string) : result unit :=
  match sources with
  | [] => Ok tt
  | source :: rest =>
      let match_topic := re.match_ TOPIC_REGEXP source in
      let match_subscription := re.match_ SUBSCRIPTION_REGEXP source in
      if negb (matched match_topic || matched match_subscription)
      then Err (ValueError_source_form source)
      else check_sources rest
  end.

Definition __init__ (source_list : list string) (with_context : bool)
    (id_label : str_or_list) (with_attributes : bool)
    (timestamp_attribute : str_or_list) (kwargs : gmap string string) : result t :=
  let _total_sources := length source_list in
  id_label ←
    match id_label with
    | Scalar v => Ok (replicate _total_sources v)
    | PerSource l =>
        if negb (length l =? _total_sources)
        then Err (ValueError_id_label_length (length l) _total_sources)
        else Ok (Some <$> l)
    end;
  timestamp_attribute ←
    match timestamp_attribute with
    | Scalar v => Ok (replicate _total_sources v)
    | PerSource l =>
        if negb (length l =? _total_sources)
        then Err (ValueError_timestamp_attribute_length (length l) _total_sources)
        else Ok (Some <$> l)
    end;
  _ ← check_sources source_list;
  match kwargs !! "topic" with
  | Some found => Err (ValueError_topic_kwarg found)
  | None =>
      match kwargs !! "subscription" with
      | Some found => Err (ValueError_subscription_kwarg found)
      | None =>
          Ok (mk source_list with_context with_attributes kwargs
                 _total_sources id_label timestamp_attribute)
      end
  end.

(** [ReadFromPubSub(..., **self._kwargs)]: the five parameters of
    [ReadFromPubSub.__init__] are given by name (or, for the address that
    is not passed, excluded by [__init__] above), so a key of [_kwargs] is
    a keyword the call cannot take. *)
Definition ReadFromPubSub_kwargs (kwargs : gmap string string)
    (topic subscription id_label : option string) (with_attributes : bool)
    (timestamp_attribute : option string) : result ReadFromPubSub.t :=
  match map_to_list kwargs with
  | [] => ReadFromPubSub.__init__ topic subscription id_label
            with_attributes timestamp_attribute
  | (key, _) :: _ => Err (TypeError_unexpected_keyword key)
  end.

(** [lambda message: (source, message)]. [source] is a free variable of the
    lambda: the loop variable of [expand], which every lambda of the loop
    shares. The lambda reads the variable when it is called, that is when
    the pipeline runs and an element arrives, not when it is written down:
    [frame_source] is the value the variable has at that time, [None] while
    it is unbound. *)
Definition add_context (frame_source : option string) (message : pyval)
  : result pyval :=
  match frame_source with
  | Some source => Ok (PyTuple (PyStr source) message)
  | None => Err (NameError_free_variable "source")
  end.

(** The first half of one round of the loop over
    [enumerate(self.source_list)]: the two step names of the round and the
    [ReadFromPubSub] built for [source], the [i]-th source.
    [context_step_name] is the name the round computes when
    [self.with_context] is set. *)
Definition read_of_source (self : t) (i : nat) (source : string)
  : result (string * string * ReadFromPubSub.t) :=
  id_label ← index (id_label self) i;
  timestamp_attribute ← index (timestamp_attribute self) i;
  let source_split := split "/" source in
  source_project ← index source_split 1;
  source_type ← index source_split 2;
  source_name ← index_last source_split;
  let step_name_base :=
    "PubSub " +:+ source_type +:+ "/project:" +:+ source_project in
  let read_step_name := step_name_base +:+ "/Read " +:+ source_name in
  let context_step_name := step_name_base +:+ "/Add Context " +:+ source_name in
  read ←
    (if String.eqb source_type "topics"
     then ReadFromPubSub_kwargs (_kwargs self) (Some source) None id_label
            (with_attributes self) timestamp_attribute
     else ReadFromPubSub_kwargs (_kwargs self) None (Some source) id_label
            (with_attributes self) timestamp_attribute);
  Ok (read_step_name, context_step_name, read).

Section expand.
Variable Read : _PubSubSource.t -> list bytes.

(** A PCollection that [expand] has built: its elements flow when the
    pipeline runs, after [expand] has returned. They are given here as a
    function of the value that the variable [source] of [expand] has by
    then. *)
Definition deferred : Type := option string -> PCollection.

(** One round of the loop: the step names in use after it, and the
    PCollection appended to [sources_pcol]. [ReadFromPubSub(...)] is built
    first, then applied under [read_step_name]; with [with_context], [Map]
    is then applied under [context_step_name]. *)
Definition expand_source (self : t) (applied : list string) (i : nat)
    (source : string) : result (list string * deferred) :=
  '(read_step_name, context_step_name, read) ← read_of_source self i source;
  applied ← apply_label applied read_step_name;
  let current_source : deferred := fun _ => ReadFromPubSub.expand Read read in
  if with_context self
  then
    applied ← apply_label applied context_step_name;
    Ok (applied,
        fun frame_source =>
          Map (add_context frame_source) (current_source frame_source))
  else Ok (applied, current_source).

(** The loop. [frame] is the variable [source] of [expand]: unbound before
    the first round, and bound to the source of the round from then on. *)
Fixpoint expand_loop (self : t) (frame : option string)
    (applied : list string) (i : nat) (sources : list string)
    (sources_pcol : list deferred)
  : result (option string * list string * list deferred) :=
  match sources with
  | [] => Ok (frame, applied, sources_pcol)
  | source :: rest =>
      let frame := Some source in
      '(applied, current_source) ← expand_source self applied i source;
      expand_loop self frame applied (S i) rest (sources_pcol ++ [current_source])
  end.

(** [expand]: the loop, then [tuple(sources_pcol) | Flatten()]. The
    elements flow after the loop has ended, with the variable [source] as
    the last round left it. *)
Definition expand (self : t) : result PCollection :=
  '(frame, applied, sources_pcol) ← expand_loop self None [] 0 (source_list self) [];
  Flatten ((fun current_source : deferred => current_source frame) <$> sources_pcol).
End expand.

End MultipleReadFromPubSub.

(** ** Definitions used by the statements below *)

(** A project id of 64 characters. *)
Definition long_project_id : string :=
  "a123456789b123456789c123456789d123456789e123456789f123456789g123".

(** The elements that one round of [MultipleReadFromPubSub.expand] adds to
    the merged PCollection, in terms of the [ReadFromPubSub] of the round:
    with [with_context], every element is paired with [key]. *)
Definition round_output (Read : _PubSubSource.t -> list bytes)
    (self : MultipleReadFromPubSub.t) (key : string)
    (rd : ReadFromPubSub.t) : PCollection :=
  if MultipleReadFromPubSub.with_context self
  then map (fun r => (fun element => PyTuple (PyStr key) element) <$> r)
           (ReadFromPubSub.expand Read rd)
  else ReadFromPubSub.expand Read rd.

(** The reader of a sample run: one element per source, the byte
    'a' for the topic [a] and the byte 'b' for anything else. *)
Definition sample_Read (source : _PubSubSource.t) : list bytes :=
  if bool_decide (_PubSubSource.full_topic source
                  = Some "projects/my-project-1/topics/a")
  then [[x61]] else [[x62]].

(** [p] starts with a project id of the grammar. *)
Definition has_project_id_prefix (p : string) : Prop :=
  exists q rest, p = q +:+ rest /\ project_id_grammar q = true.

(** A source string that one of the two address patterns accepts. *)
Definition source_shaped (source : string) : Prop :=
  address_shaped "/topics/" source \/ address_shaped "/subscriptions/" source.

(** A per-source argument fits [N] sources: a scalar, or a list of [N]. *)
Definition fits (N : nat) (arg : str_or_list) : Prop :=
  match arg with
  | Scalar _ => True
  | PerSource l => length l = N
  end.

(** The list a per-source argument that fits is turned into. *)
Definition per_source (N : nat) (arg : str_or_list) : list (option string) :=
  match arg with
  | Scalar v => replicate N v
  | PerSource l => Some <$> l
  end.

(** One of the two parsers returns a pair for [source]. *)
Definition parses (source : string) : Prop :=
  (exists r, parse_topic source = Ok r) \/ (exists r, parse_subscription source = Ok r).

(** * Properties *)

(** ** Sample runs *)

Example parse_topic_ex1 :
  parse_topic "projects/my-project-1/topics/my-topic" = Ok ("my-project-1", "my-topic").
Proof. reflexivity. Qed.

Example parse_topic_ex2 :
  parse_topic "projects/ab/topics/t" = Err (ValueError_project_name "ab").
Proof. reflexivity. Qed.

Example init_none_empty :
  PubsubMessage.__init__ None (Some ∅) = Err (ValueError_payload None (Some ∅)).
Proof. reflexivity. Qed.

Example proto_ex1 :
  PubsubMessage._to_proto_str (mkPubsubMessage (Some [x64; x61]) (Some {["k" := "v"]}))
  = Ok [x0a; x02; x64; x61; x12; x06; x0a; x01; x6b; x12; x01; x76].
Proof. vm_compute. reflexivity. Qed.

(** ** The matcher *)
Section matcher.
Import re.

Lemma try_down_Some {A} (f : nat -> option A) lo n r :
  try_down f lo n = Some r ->
  exists k, lo <= k <= n /\ f k = Some r /\ forall j, k < j <= n -> f j = None.
Proof.
  induction n as [|n IH]; simpl.
  - destruct (0 <? lo) eqn:E; [discriminate|]. apply Nat.ltb_ge in E.
    destruct (f 0) eqn:F; [|discriminate]. intros [= ->].
    exists 0. repeat split; [lia | lia | done | intros; lia].
  - destruct (S n <? lo) eqn:E; [discriminate|]. apply Nat.ltb_ge in E.
    destruct (f (S n)) eqn:F.
    + intros [= ->]. exists (S n). repeat split; [lia | lia | done | intros; lia].
    + intros H. destruct (IH H) as (k & Hk & Hf & Hj).
      exists k. repeat split; [lia | lia | done |].
      intros j Hj'. destruct (decide (j = S n)) as [->|]; [done|]. apply Hj. lia.
Qed.

Lemma try_down_is_Some {A} (f : nat -> option A) lo n k :
  lo <= k <= n -> is_Some (f k) -> is_Some (try_down f lo n).
Proof.
  intros Hk Hf. induction n as [|n IH]; simpl.
  - assert (k = 0) as -> by lia.
    destruct (0 <? lo) eqn:E; [apply Nat.ltb_lt in E; lia|].
    destruct Hf as [x ->]. eauto.
  - destruct (S n <? lo) eqn:E; [apply Nat.ltb_lt in E; lia|].
    destruct (f (S n)) eqn:F; [eauto|].
    apply IH. destruct (decide (k = S n)) as [->|]; [|lia].
    rewrite F in Hf. by destruct Hf.
Qed.

Lemma try_down_top {A} (f : nat -> option A) lo n r :
  lo <= n -> f n = Some r -> try_down f lo n = Some r.
Proof.
  intros Hn Hf. destruct n; simpl.
  - destruct (0 <? lo) eqn:E; [apply Nat.ltb_lt in E; lia|]. by rewrite Hf.
  - destruct (S n <? lo) eqn:E; [apply Nat.ltb_lt in E; lia|]. by rewrite Hf.
Qed.

Lemma strip_prefix_app l s : strip_prefix l (l ++ s) = Some s.
Proof.
  induction l as [|a l IH]; simpl; [done|]. by rewrite Ascii.eqb_refl.
Qed.

Lemma strip_prefix_Some l s s' : strip_prefix l s = Some s' -> s = l ++ s'.
Proof.
  revert s. induction l as [|a l IH]; intros s; simpl.
  - by intros [= ->].
  - destruct s as [|b s]; [discriminate|].
    destruct (Ascii.eqb a b) eqn:E; [|discriminate].
    apply Ascii.eqb_eq in E as ->. intros H. by rewrite (IH _ H).
Qed.

Lemma run_le_length c s : run c s <= length s.
Proof. induction s as [|a s IH]; simpl; [lia|]. destruct (c a); simpl; lia. Qed.

Lemma run_app c p s :
  Forall (fun a => c a = true) p -> run c (p ++ s) = length p + run c s.
Proof.
  induction 1 as [|a p Ha _ IH]; simpl; [done|]. by rewrite Ha, IH.
Qed.

Lemma take_run c s k :
  k <= run c s -> Forall (fun a => c a = true) (take k s).
Proof.
  revert k. induction s as [|a s IH]; intros k; simpl.
  - intros _. rewrite take_nil. constructor.
  - destruct k as [|k]; [constructor|]. simpl.
    destruct (c a) eqn:E; [|lia]. intros H. constructor; [done|]. apply IH. lia.
Qed.

Lemma drop_run c s :
  drop (run c s) s = [] \/ exists a r, drop (run c s) s = a :: r /\ c a = false.
Proof.
  induction s as [|a s IH]; simpl; [by left|].
  destruct (c a) eqn:E; simpl; [done|]. right. eauto.
Qed.

Lemma list_ascii_of_string_app s1 s2 :
  list_ascii_of_string (s1 +:+ s2) = list_ascii_of_string s1 ++ list_ascii_of_string s2.
Proof. induction s1 as [|a s1 IH]; simpl; [done|]. by rewrite IH. Qed.

Lemma string_of_list_ascii_app l1 l2 :
  string_of_list_ascii (l1 ++ l2) = string_of_list_ascii l1 +:+ string_of_list_ascii l2.
Proof. induction l1 as [|a l1 IH]; simpl; [done|]. by rewrite IH. Qed.


Lemma address_match_intro mid p n rest :
  p <> [] -> Forall (fun a => not_slash a = true) p ->
  n <> [] -> Forall (fun a => dot a = true) n ->
  (rest = [] \/ exists r, rest = "010"%char :: r) ->
  match_at (address_pattern (String "/" mid))
    (list_ascii_of_string "projects/" ++ p
       ++ list_ascii_of_string (String "/" mid) ++ n ++ rest)
  = Some [p; n].
Proof.
  intros Hp Hps Hn Hns Hrest. unfold address_pattern.
  cbn [match_at]. rewrite strip_prefix_app.
  assert (reach not_slash None (p ++ list_ascii_of_string (String "/" mid) ++ n ++ rest)
          = length p) as ->.
  { simpl. rewrite run_app by done. simpl. lia. }
  apply try_down_top; [destruct p; simpl in *; [done|lia]|].
  rewrite take_app_length, drop_app_length.
  rewrite strip_prefix_app.
  assert (reach dot None (n ++ rest) = length n) as ->.
  { simpl. rewrite run_app by done.
    destruct Hrest as [->|[r ->]]; simpl; lia. }
  rewrite (try_down_top _ 1 (length n) [n]); [done| |].
  - destruct n; simpl in *; [done|lia].
  - by rewrite take_app_length.
Qed.

Lemma address_match_elim mid s gs :
  match_at (address_pattern (String "/" mid)) s = Some gs ->
  exists p n rest,
    gs = [p; n] /\
    s = list_ascii_of_string "projects/" ++ p
          ++ list_ascii_of_string (String "/" mid) ++ n ++ rest /\
    p <> [] /\ Forall (fun a => not_slash a = true) p /\
    n <> [] /\ Forall (fun a => dot a = true) n /\
    (rest = [] \/ exists r, rest = "010"%char :: r).
Proof.
  unfold address_pattern. cbn [match_at].
  destruct (strip_prefix _ s) as [s1|] eqn:E1; [|discriminate].
  apply strip_prefix_Some in E1. intros H.
  apply try_down_Some in H as (k & Hk & Hf & _).
  destruct (strip_prefix _ (drop k s1)) as [s2|] eqn:E2; [|discriminate].
  apply strip_prefix_Some in E2.
  apply fmap_Some in Hf as (g & Hg & ->).
  apply try_down_Some in Hg as (k2 & Hk2 & Hf2 & Hmax).
  injection Hf2 as <-.
  assert (k2 = run dot s2) as ->.
  { destruct (decide (k2 = run dot s2)) as [|Hne]; [done|].
    simpl in Hk2. specialize (Hmax (run dot s2)). simpl in Hmax.
    discriminate Hmax. lia. }
  simpl in Hk, Hk2.
  exists (take k s1), (take (run dot s2) s2), (drop (run dot s2) s2).
  split; [done|]. split.
  { rewrite take_drop, <- E2, take_drop. done. }
  pose proof (run_le_length not_slash s1). pose proof (run_le_length dot s2).
  split; [intros Hnil; apply (f_equal length) in Hnil;
          rewrite length_take in Hnil; simpl in Hnil; lia|].
  split; [apply take_run; lia|].
  split; [intros Hnil; apply (f_equal length) in Hnil;
          rewrite length_take in Hnil; simpl in Hnil; lia|].
  split; [by apply take_run|].
  destruct (drop_run dot s2) as [->|(a & r & -> & Ha)]; [by left|].
  right. exists r. f_equal. unfold dot in Ha.
  apply negb_false_iff, Ascii.eqb_eq in Ha. done.
Qed.

End matcher.

(** ** Resource names *)

Section names.
Import re.

Lemma TOPIC_REGEXP_pattern : TOPIC_REGEXP = address_pattern "/topics/".
Proof. reflexivity. Qed.

Lemma SUBSCRIPTION_REGEXP_pattern :
  SUBSCRIPTION_REGEXP = address_pattern "/subscriptions/".
Proof. reflexivity. Qed.

Lemma string_nonempty_chars s : s <> "" -> list_ascii_of_string s <> [].
Proof. destruct s; [done|]. simpl. done. Qed.

Lemma not_slash_no_char s :
  no_char "/" s <-> Forall (fun a => not_slash a = true) (list_ascii_of_string s).
Proof.
  unfold no_char, not_slash. apply Forall_iff. intros a.
  rewrite negb_true_iff. destruct (Ascii.eqb_spec a "/"); naive_solver.
Qed.

Lemma dot_no_char s :
  no_char "010" s <-> Forall (fun a => dot a = true) (list_ascii_of_string s).
Proof.
  unfold no_char, dot. apply Forall_iff. intros a.
  rewrite negb_true_iff. destruct (Ascii.eqb_spec a "010"); naive_solver.
Qed.

(** [re.match] on a string that is an address and nothing more. *)
Lemma match_address mid project name :
  project <> "" -> no_char "/" project ->
  name <> "" -> no_char "010" name ->
  match_ (address_pattern (String "/" mid))
    ("projects/" +:+ project +:+ String "/" mid +:+ name)
  = Some [project; name].
Proof.
  intros Hp Hps Hn Hns. unfold match_.
  rewrite !list_ascii_of_string_app.
  rewrite <- (app_nil_r (list_ascii_of_string name)).
  rewrite address_match_intro.
  - simpl. by rewrite !string_of_list_ascii_of_string.
  - by apply string_nonempty_chars.
  - by apply not_slash_no_char.
  - by apply string_nonempty_chars.
  - by apply dot_no_char.
  - by left.
Qed.

(** What a successful [re.match] with an address pattern tells. *)
Lemma match_address_inv mid s gs :
  match_ (address_pattern (String "/" mid)) s = Some gs ->
  exists project name rest,
    gs = [project; name] /\
    s = "projects/" +:+ project +:+ String "/" mid +:+ name +:+ rest /\
    project <> "" /\ no_char "/" project /\
    name <> "" /\ no_char "010" name /\
    (rest = "" \/ exists r, rest = String "010" r).
Proof.
  unfold match_. intros H. apply fmap_Some in H as (g & Hg & ->).
  apply address_match_elim in Hg
    as (p & n & rest & -> & Hs & Hp & Hps & Hn & Hns & Hrest).
  exists (string_of_list_ascii p), (string_of_list_ascii n),
         (string_of_list_ascii rest).
  split; [done|]. split.
  { rewrite <- (string_of_list_ascii_of_string s), Hs.
    by rewrite !string_of_list_ascii_app, !string_of_list_ascii_of_string. }
  split; [by destruct p|].
  split; [by apply not_slash_no_char; rewrite list_ascii_of_string_of_list_ascii|].
  split; [by destruct n|].
  split; [by apply dot_no_char; rewrite list_ascii_of_string_of_list_ascii|].
  destruct Hrest as [->|[r ->]]; [by left|]. right. by eexists.
Qed.

Lemma address_shaped_iff mid s :
  address_shaped (String "/" mid) s
  <-> is_Some (match_ (address_pattern (String "/" mid)) s).
Proof.
  split.
  - intros (p & c & rest & -> & Hp & Hps & Hc).
    set (l := list_ascii_of_string rest).
    unfold match_. rewrite !list_ascii_of_string_app.
    change (list_ascii_of_string (String c rest)) with (c :: l).
    rewrite <- (take_drop (run dot l) l).
    change (c :: take (run dot l) l ++ drop (run dot l) l)
      with ((c :: take (run dot l) l) ++ drop (run dot l) l).
    rewrite address_match_intro; [by eexists| | |done| |].
    + by apply string_nonempty_chars.
    + by apply not_slash_no_char.
    + constructor; [|by apply take_run].
      unfold dot. apply negb_true_iff. by destruct (Ascii.eqb_spec c "010").
    + destruct (drop_run dot l) as [->|(a & r & -> & Ha)]; [by left|].
      right. exists r. f_equal. unfold dot in Ha.
      by apply negb_false_iff, Ascii.eqb_eq in Ha.
  - intros [gs H].
    apply match_address_inv in H
      as (p & n & rest & _ & -> & Hp & Hps & Hn & Hns & _).
    destruct n as [|c n]; [done|].
    exists p, c, (n +:+ rest). repeat split; [done|done|].
    unfold no_char in Hns. simpl in Hns. by inversion Hns.
Qed.

Lemma project_id_grammar_inv p :
  project_id_grammar p = true ->
  exists first middle last,
    list_ascii_of_string p = first :: middle ++ [last] /\
    lower first = true /\ Forall (fun a => project_char a = true) middle /\
    4 <= length middle <= 61 /\ lower_digit last = true.
Proof.
  unfold project_id_grammar.
  destruct (list_ascii_of_string p) as [|first tl]; [done|].
  destruct (reverse tl) as [|last middle] eqn:E; [done|].
  rewrite !andb_true_iff, forallb_forall, Nat.leb_le, Nat.leb_le.
  intros ((((H1 & H2) & H3) & H4) & H5).
  exists first, (reverse middle), last.
  split. { f_equal. rewrite <- (reverse_involutive tl), E. by rewrite reverse_cons. }
  split; [done|]. split.
  { apply Forall_reverse, Forall_forall. intros a Ha. apply H2.
    by apply list_elem_of_In. }
  rewrite length_reverse. done.
Qed.

(** The check of the parsers accepts a project id as soon as it starts with
    a project id of the grammar. *)
Lemma project_id_grammar_prefix_match p rest :
  project_id_grammar p = true -> is_Some (match_ PROJECT_ID_REGEXP (p +:+ rest)).
Proof.
  intros (first & middle & last & Hp & H1 & H2 & H3 & H4)%project_id_grammar_inv.
  unfold match_, PROJECT_ID_REGEXP.
  rewrite list_ascii_of_string_app, Hp.
  set (r := list_ascii_of_string rest).
  change ((first :: middle ++ [last]) ++ r) with (first :: (middle ++ [last]) ++ r).
  rewrite <- app_assoc.
  cbn [match_at]. rewrite H1.
  apply fmap_is_Some.
  apply (try_down_is_Some _ _ _ (length middle)).
  - split; [by destruct H3|]. unfold reach. rewrite run_app by done.
    clear - H3. lia.
  - rewrite drop_app_length. simpl. rewrite H4. by eexists.
Qed.

(** A project id of the grammar is accepted by the check of the parsers. *)
Lemma project_id_grammar_match p :
  project_id_grammar p = true -> is_Some (match_ PROJECT_ID_REGEXP p).
Proof.
  intros H.
  assert (p +:+ "" = p) as Hp.
  { clear H. induction p as [|a p IH]; [done|].
    change (String a p +:+ "") with (String a (p +:+ "")). by rewrite IH. }
  rewrite <- Hp. by apply project_id_grammar_prefix_match.
Qed.

Lemma class_not_slash a :
  lower a = true \/ project_char a = true \/ lower_digit a = true -> a <> "/"%char.
Proof. intros H ->. vm_compute in H. destruct H as [H|[H|H]]; discriminate. Qed.

Lemma project_id_grammar_no_slash p :
  project_id_grammar p = true -> p <> "" /\ no_char "/" p.
Proof.
  intros (first & middle & last & Hp & H1 & H2 & H3 & H4)%project_id_grammar_inv.
  split; [by destruct p|].
  unfold no_char. rewrite Hp. constructor; [apply class_not_slash; auto|].
  apply Forall_app. split.
  - eapply Forall_impl; [done|]. intros a Ha. apply class_not_slash; auto.
  - constructor; [apply class_not_slash; auto|constructor].
Qed.

(** The two outcomes of [parse_topic] after a match of the pattern. *)
Lemma parse_topic_matched s project name :
  match_ TOPIC_REGEXP s = Some [project; name] ->
  parse_topic s = if bool_decide (is_Some (match_ PROJECT_ID_REGEXP project))
                  then Ok (project, name)
                  else Err (ValueError_project_name project).
Proof.
  intros H. unfold parse_topic. rewrite H.
  destruct (match_ PROJECT_ID_REGEXP project) eqn:E.
  - rewrite bool_decide_true; [done|by eexists].
  - rewrite bool_decide_false; [done|]. by intros [? ?].
Qed.

Lemma parse_subscription_matched s project name :
  match_ SUBSCRIPTION_REGEXP s = Some [project; name] ->
  parse_subscription s
  = if bool_decide (is_Some (match_ PROJECT_ID_REGEXP project))
    then Ok (project, name)
    else Err (ValueError_project_name project).
Proof.
  intros H. unfold parse_subscription. rewrite H.
  destruct (match_ PROJECT_ID_REGEXP project) eqn:E.
  - rewrite bool_decide_true; [done|by eexists].
  - rewrite bool_decide_false; [done|]. by intros [? ?].
Qed.

Lemma parse_topic_unmatched s :
  match_ TOPIC_REGEXP s = None -> parse_topic s = Err (ValueError_topic_form s).
Proof. intros H. unfold parse_topic. by rewrite H. Qed.

Lemma parse_subscription_unmatched s :
  match_ SUBSCRIPTION_REGEXP s = None ->
  parse_subscription s = Err (ValueError_subscription_form s).
Proof. intros H. unfold parse_subscription. by rewrite H. Qed.

End names.

(** [parse_topic] reports an invalid project name only for a project id
    outside the grammar. *)
Lemma parse_topic_project_error s q :
  parse_topic s = Err (ValueError_project_name q) -> project_id_grammar q = false.
Proof.
  unfold parse_topic.
  destruct (re.match_ TOPIC_REGEXP s) as [[|p [|n [|]]]|]; try discriminate.
  destruct (re.match_ PROJECT_ID_REGEXP p) eqn:E; [discriminate|].
  intros [= <-]. destruct (project_id_grammar p) eqn:G; [|done].
  apply project_id_grammar_match in G as [? G]. congruence.
Qed.

Lemma parse_subscription_project_error s q :
  parse_subscription s = Err (ValueError_project_name q) ->
  project_id_grammar q = false.
Proof.
  unfold parse_subscription.
  destruct (re.match_ SUBSCRIPTION_REGEXP s) as [[|p [|n [|]]]|]; try discriminate.
  destruct (re.match_ PROJECT_ID_REGEXP p) eqn:E; [discriminate|].
  intros [= <-]. destruct (project_id_grammar p) eqn:G; [|done].
  apply project_id_grammar_match in G as [? G]. congruence.
Qed.


(** C3, at the inputs where the parsers depart from it. The project id is
    checked with [re.match], which looks for the pattern at the start of the
    project id and does not require it to end there. A project id that ends
    in '-' and one of 64 characters, both outside the grammar, are returned
    by [parse_topic] and by [parse_subscription] instead of being refused as
    invalid project ids. *)
Theorem project_id_checked_at_start_only :
  project_id_grammar "my-project-" = false /\
  parse_topic "projects/my-project-/topics/t" = Ok ("my-project-", "t") /\
  parse_subscription "projects/my-project-/subscriptions/s"
    = Ok ("my-project-", "s") /\
  String.length long_project_id = 64 /\
  project_id_grammar long_project_id = false /\
  parse_topic ("projects/" +:+ long_project_id +:+ "/topics/t")
    = Ok (long_project_id, "t") /\
  parse_subscription ("projects/" +:+ long_project_id +:+ "/subscriptions/s")
    = Ok (long_project_id, "s").
Proof. repeat split; vm_compute; reflexivity. Qed.

(** C4, as stated, fails on a name with a line feed: the second group of the
    pattern, [(.+)], stops before it, so the pair returned does not re-join
    to the input, and the input is not refused either. *)
Lemma parse_topic_line_feed_not_rejoined :
  let name := "a" +:+ String "010" "b" in
  let s := "projects/" +:+ "my-project-1" +:+ "/topics/" +:+ name in
  project_id_grammar "my-project-1" = true /\
  name <> "" /\
  exists project topic_name,
    parse_topic s = Ok (project, topic_name) /\
    "projects/" +:+ project +:+ "/topics/" +:+ topic_name <> s.
Proof.
  repeat split; [done|].
  exists "my-project-1", "a". split; [vm_compute; reflexivity|discriminate].
Qed.

(** C4, amended. For a string [s] that is "projects/", a project id of the
    grammar, "/topics/" and a non-empty name without a line feed,
    [parse_topic s] returns that project id and that name, which re-join to
    [s]. A string that does not start as the topic pattern requires is
    refused with the error about the form of the topic. *)
Theorem parse_topic_rejoin (s : string) :
  (forall project name,
      s = "projects/" +:+ project +:+ "/topics/" +:+ name ->
      project_id_grammar project = true ->
      name <> "" -> no_char "010" name ->
      exists p n, parse_topic s = Ok (p, n) /\ p = project /\ n = name /\
                  "projects/" +:+ p +:+ "/topics/" +:+ n = s) /\
  (~ address_shaped "/topics/" s ->
   parse_topic s = Err (ValueError_topic_form s) /\
   kind (ValueError_topic_form s) = InvalidFormat).
Proof.
  split.
  - intros project name -> Hg Hn Hns.
    destruct (project_id_grammar_no_slash _ Hg) as [Hp Hps].
    exists project, name. split; [|done].
    rewrite (parse_topic_matched _ project name).
    + rewrite bool_decide_true; [done|]. by apply project_id_grammar_match.
    + rewrite TOPIC_REGEXP_pattern. by apply match_address.
  - intros Hs. split; [|done]. apply parse_topic_unmatched.
    destruct (re.match_ TOPIC_REGEXP s) eqn:E; [|done].
    exfalso. apply Hs. apply address_shaped_iff.
    rewrite <- TOPIC_REGEXP_pattern, E. by eexists.
Qed.

Lemma parse_topic_rejoin_witness :
  (exists p n,
      parse_topic "projects/my-project-1/topics/my-topic" = Ok (p, n) /\
      p = "my-project-1" /\ n = "my-topic" /\
      "projects/" +:+ p +:+ "/topics/" +:+ n
      = "projects/my-project-1/topics/my-topic") /\
  parse_topic "topics/my-topic" = Err (ValueError_topic_form "topics/my-topic") /\
  kind (ValueError_topic_form "topics/my-topic") = InvalidFormat.
Proof.
  split.
  - apply (proj1 (parse_topic_rejoin "projects/my-project-1/topics/my-topic")
             "my-project-1" "my-topic").
    + reflexivity.
    + reflexivity.
    + discriminate.
    + unfold no_char. simpl. repeat constructor; discriminate.
  - apply (proj2 (parse_topic_rejoin "topics/my-topic")).
    intros H. apply address_shaped_iff in H. vm_compute in H.
    destruct H as [x H]. discriminate H.
Defined.

(** ** Messages *)

(** [__init__] raises exactly on the condition of its [if]. *)
Lemma message_init_decide d a :
  PubsubMessage.__init__ d a
  = if bool_decide (d = None /\ (a = None \/ a = Some ∅))
    then Err (ValueError_payload d a)
    else Ok (mkPubsubMessage d a).
Proof.
  unfold PubsubMessage.__init__, PubsubMessage.truthy_dict.
  destruct d as [d|], a as [m|];
    repeat (case_bool_decide; simpl); try done;
    exfalso; intuition congruence.
Qed.

(** C8. [PubsubMessage(data, attributes)] raises its ValueError exactly when
    [data] is None and [attributes] is None or the empty dict. In particular
    it raises on (None, {}), and accepts (b"", {}) and (None, {k: v}). *)
Theorem message_init_fails_iff (d : option bytes) (a : option (gmap string string)) :
  (PubsubMessage.__init__ d a = Err (ValueError_payload d a)
   <-> d = None /\ (a = None \/ a = Some ∅)) /\
  (PubsubMessage.__init__ d a = Ok (mkPubsubMessage d a)
   <-> ~ (d = None /\ (a = None \/ a = Some ∅))) /\
  kind (ValueError_payload d a) = UsageError /\
  PubsubMessage.__init__ None (Some ∅) = Err (ValueError_payload None (Some ∅)) /\
  PubsubMessage.__init__ (Some []) (Some ∅) = Ok (mkPubsubMessage (Some []) (Some ∅)) /\
  (forall k v : string,
      PubsubMessage.__init__ None (Some {[k := v]})
      = Ok (mkPubsubMessage None (Some {[k := v]}))).
Proof.
  pose proof message_init_decide as Hinit.
  split; [|split; [|split; [done|split; [done|split; [done|]]]]].
  - rewrite Hinit. case_bool_decide; split; done.
  - rewrite Hinit. case_bool_decide; split; done.
  - intros k v. rewrite Hinit. rewrite bool_decide_false; [done|].
    intros [_ [H|H]]; [done|]. apply (inj Some) in H.
    apply (f_equal (fun m : gmap string string => m !! k)) in H.
    by rewrite lookup_singleton_eq, lookup_empty in H.
Qed.

(** C9. With [with_attributes] set, [WriteToPubSub.expand] maps every
    element through [to_proto_str]: an element that is no [PubsubMessage]
    fails with the TypeError whose message is formatted with the type and
    the value of the element, and a [PubsubMessage] becomes the bytes of its
    [_to_proto_str]. *)
Theorem write_with_attributes (self : WriteToPubSub.t) (pcoll : PCollection) :
  WriteToPubSub.with_attributes self = true ->
  (forall element,
      isinstance_PubsubMessage element = false ->
      WriteToPubSub.to_proto_str element
      = Err (TypeError_unexpected_element (type element) element) /\
      kind (TypeError_unexpected_element (type element) element) = TypeMismatch) /\
  (forall m,
      WriteToPubSub.to_proto_str (PyMessage m) = PubsubMessage._to_proto_str m) /\
  WriteToPubSub.expand self pcoll
  = map (fun r =>
           match r with
           | Ok (PyMessage m) => PyBytes <$> PubsubMessage._to_proto_str m
           | Ok element =>
               Err (TypeError_unexpected_element (type element) element)
           | Err e => Err e
           end) pcoll.
Proof.
  intros Hwa. split; [|split].
  - intros element He. split; [|done]. by destruct element.
  - done.
  - unfold WriteToPubSub.expand, Map. rewrite Hwa.
    apply map_ext. intros [element|e]; [|done]. by destruct element.
Qed.

Lemma write_with_attributes_witness :
  WriteToPubSub.expand
    (WriteToPubSub.mk true None None
       (_PubSubSink.mk "projects/my-project-1/topics/t" None true None
          "my-project-1" "t"))
    [Ok (PyBytes [x64]); Ok (PyMessage (mkPubsubMessage (Some [x64]) (Some ∅)))]
  = [Err (TypeError_unexpected_element bytes_type (PyBytes [x64]));
     Ok (PyBytes [x0a; x01; x64])].
Proof.
  pose proof (write_with_attributes
    (WriteToPubSub.mk true None None
       (_PubSubSink.mk "projects/my-project-1/topics/t" None true None
          "my-project-1" "t"))
    [Ok (PyBytes [x64]); Ok (PyMessage (mkPubsubMessage (Some [x64]) (Some ∅)))]
    eq_refl) as (_ & _ & ->).
  vm_compute. reflexivity.
Defined.

(** ** Source configuration *)

(** C5. The constructor of the source refuses two absent addresses (None
    or the empty string, which it does not tell apart) with the
    missing-address error and two present ones with the conflicting-address
    error. On success exactly one of the two names is set, together with the
    project, to what the parser of that address returned. An error of the
    parser is the error of the constructor. *)
Theorem source_init_addresses
    (topic subscription id_label : option string) (with_attributes : bool)
    (timestamp_attribute : option string) :
  let init := _PubSubSource.__init__ topic subscription id_label
                with_attributes timestamp_attribute in
  (truthy topic = false -> truthy subscription = false ->
   init = Err ValueError_no_address /\ kind ValueError_no_address = MissingAddress) /\
  (truthy topic = true -> truthy subscription = true ->
   init = Err ValueError_two_addresses /\
   kind ValueError_two_addresses = ConflictingAddress) /\
  (forall self, init = Ok self ->
     (exists t p n,
         if_str topic = Some t /\ if_str subscription = None /\
         parse_topic t = Ok (p, n) /\
         _PubSubSource.project self = Some p /\
         _PubSubSource.topic_name self = Some n /\
         _PubSubSource.subscription_name self = None) \/
     (exists s p n,
         if_str subscription = Some s /\ if_str topic = None /\
         parse_subscription s = Ok (p, n) /\
         _PubSubSource.project self = Some p /\
         _PubSubSource.subscription_name self = Some n /\
         _PubSubSource.topic_name self = None)) /\
  (forall t e, if_str topic = Some t -> if_str subscription = None ->
               parse_topic t = Err e -> init = Err e) /\
  (forall s e, if_str subscription = Some s -> if_str topic = None ->
               parse_subscription s = Err e -> init = Err e).
Proof.
  intros init. subst init. unfold _PubSubSource.__init__, truthy.
  destruct (if_str topic) as [t|] eqn:Et, (if_str subscription) as [s|] eqn:Es;
    simpl.
  - repeat split; try done. 
  - repeat split; try done.
    + intros self H. left. exists t.
      destruct (parse_topic t) as [[p n]|e]; [|done]. simpl in H.
      injection H as <-. exists p, n. done.
    + intros t' e [= <-] _ ->. done.
  - repeat split; try done.
    + intros self H. right. exists s.
      destruct (parse_subscription s) as [[p n]|e]; [|done]. simpl in H.
      injection H as <-. exists p, n. done.
    + intros s' e [= <-] _ ->. done.
  - repeat split; done.
Qed.

Lemma source_init_addresses_witness :
  _PubSubSource.__init__ None None None false None = Err ValueError_no_address /\
  _PubSubSource.__init__ (Some "projects/my-project-1/topics/t")
    (Some "projects/my-project-1/subscriptions/s") None false None
  = Err ValueError_two_addresses /\
  _PubSubSource.__init__ (Some "projects/ab/topics/t") None None false None
  = Err (ValueError_project_name "ab").
Proof.
  split; [|split].
  - apply (proj1 (source_init_addresses None None None false None)); reflexivity.
  - apply (proj1 (proj2 (source_init_addresses
             (Some "projects/my-project-1/topics/t")
             (Some "projects/my-project-1/subscriptions/s") None false None)));
      reflexivity.
  - apply (proj1 (proj2 (proj2 (proj2 (source_init_addresses
             (Some "projects/ab/topics/t") None None false None))))
             "projects/ab/topics/t"); reflexivity.
Defined.



(** ** Portable payload *)

(** C6, as stated, fails: the payload has string fields, which carry an
    absent value as the empty string, so the transform built back from the
    payload has the empty string where the original had None. *)
Lemma read_payload_round_trip_not_identical :
  exists original rebuilt,
    ReadFromPubSub.__init__ (Some "projects/my-project-1/topics/t") None None
      false None = Ok original /\
    ReadFromPubSub.from_runner_api_parameter
      (ReadFromPubSub._pubsub_read_payload original) = Ok rebuilt /\
    _PubSubSource.id_label (ReadFromPubSub._source original) = None /\
    _PubSubSource.id_label (ReadFromPubSub._source rebuilt) = Some "" /\
    _PubSubSource.full_subscription (ReadFromPubSub._source original) = None /\
    _PubSubSource.full_subscription (ReadFromPubSub._source rebuilt) = Some "" /\
    rebuilt <> original.
Proof.
  eexists _, _. split; [vm_compute; reflexivity|].
  split; [vm_compute; reflexivity|]. repeat split. discriminate.
Qed.

Lemma if_str_field o :
  if_str (Some (beam_runner_api_pb2.str_field o)) = if_str o.
Proof. by destruct o. Qed.

(** C6, amended. For a [ReadFromPubSub] that was built, building a transform
    from its exported payload succeeds, and the result has the same topic,
    subscription, dedup attribute and timestamp attribute once an absent
    value and the empty string are identified, the same [with_attributes]
    flag, the same parsed project and names, and the same exported payload.
    Each of the four strings of the result is the string of the original,
    with the empty string where the original had None. *)
Theorem read_payload_round_trip
    (topic subscription id_label : option string) (with_attributes : bool)
    (timestamp_attribute : option string) (original : ReadFromPubSub.t) :
  ReadFromPubSub.__init__ topic subscription id_label with_attributes
    timestamp_attribute = Ok original ->
  exists rebuilt,
    ReadFromPubSub.from_runner_api_parameter
      (ReadFromPubSub._pubsub_read_payload original) = Ok rebuilt /\
    let a := ReadFromPubSub._source original in
    let b := ReadFromPubSub._source rebuilt in
    let same (x y : option string) :=
      beam_runner_api_pb2.str_field x = beam_runner_api_pb2.str_field y in
    same (_PubSubSource.full_topic b) (_PubSubSource.full_topic a) /\
    same (_PubSubSource.full_subscription b) (_PubSubSource.full_subscription a) /\
    same (_PubSubSource.id_label b) (_PubSubSource.id_label a) /\
    same (_PubSubSource.timestamp_attribute b) (_PubSubSource.timestamp_attribute a) /\
    ReadFromPubSub.with_attributes rebuilt = ReadFromPubSub.with_attributes original /\
    _PubSubSource.with_attributes b = _PubSubSource.with_attributes a /\
    _PubSubSource.project b = _PubSubSource.project a /\
    _PubSubSource.topic_name b = _PubSubSource.topic_name a /\
    _PubSubSource.subscription_name b = _PubSubSource.subscription_name a /\
    ReadFromPubSub._pubsub_read_payload rebuilt
    = ReadFromPubSub._pubsub_read_payload original /\
    _PubSubSource.full_topic b
    = Some (beam_runner_api_pb2.str_field (_PubSubSource.full_topic a)) /\
    _PubSubSource.full_subscription b
    = Some (beam_runner_api_pb2.str_field (_PubSubSource.full_subscription a)) /\
    _PubSubSource.id_label b
    = Some (beam_runner_api_pb2.str_field (_PubSubSource.id_label a)) /\
    _PubSubSource.timestamp_attribute b
    = Some (beam_runner_api_pb2.str_field (_PubSubSource.timestamp_attribute a)).
Proof.
  intros Hinit.
  assert (exists p tn sn,
             original = ReadFromPubSub.mk with_attributes
                          (_PubSubSource.mk topic subscription tn sn id_label
                             with_attributes timestamp_attribute (Some p)) /\
             forall il ts,
               _PubSubSource.__init__
                 (Some (beam_runner_api_pb2.str_field topic))
                 (Some (beam_runner_api_pb2.str_field subscription))
                 il with_attributes ts
               = Ok (_PubSubSource.mk
                       (Some (beam_runner_api_pb2.str_field topic))
                       (Some (beam_runner_api_pb2.str_field subscription))
                       tn sn il with_attributes ts (Some p)))
    as (p & tn & sn & -> & Hrebuild).
  { revert Hinit.
    unfold ReadFromPubSub.__init__, _PubSubSource.__init__, truthy.
    rewrite !if_str_field.
    destruct (if_str topic) as [t|], (if_str subscription) as [s|];
      cbn [negb orb andb]; try discriminate.
    - destruct (parse_topic t) as [[p n]|e]; [|discriminate].
      intros [= <-]. by exists p, (Some n), None.
    - destruct (parse_subscription s) as [[p n]|e]; [|discriminate].
      intros [= <-]. by exists p, None, (Some n). }
  unfold ReadFromPubSub.from_runner_api_parameter,
    ReadFromPubSub._pubsub_read_payload, ReadFromPubSub.__init__.
  cbn [ReadFromPubSub._source ReadFromPubSub.with_attributes
       _PubSubSource.full_topic _PubSubSource.full_subscription
       _PubSubSource.id_label _PubSubSource.timestamp_attribute
       beam_runner_api_pb2.new_PubSubReadPayload beam_runner_api_pb2.topic
       beam_runner_api_pb2.subscription beam_runner_api_pb2.id_attribute
       beam_runner_api_pb2.timestamp_attribute
       beam_runner_api_pb2.with_attributes].
  rewrite Hrebuild. eexists. split; [reflexivity|].
  cbn. repeat split.
Qed.

Lemma read_payload_round_trip_witness :
  exists rebuilt,
    ReadFromPubSub.from_runner_api_parameter
      (beam_runner_api_pb2.mkRead "" "projects/my-project-1/subscriptions/s"
         "ts" "id" true "") = Ok rebuilt /\
    ReadFromPubSub.with_attributes rebuilt = true.
Proof.
  destruct (read_payload_round_trip None
              (Some "projects/my-project-1/subscriptions/s") (Some "id") true
              (Some "ts") _ eq_refl) as (rebuilt & H & _ & _ & _ & _ & Hwa & _).
  exists rebuilt. split; [exact H|exact Hwa].
Defined.

(** ** The multi-source reader *)

Lemma index_Ok {A} (l : list A) i x : index l i = Ok x <-> l !! i = Some x.
Proof. unfold index. destruct (l !! i); split; congruence. Qed.

Lemma bind_Ok {A B} (r : result A) (k : A -> result B) b :
  r ≫= k = Ok b <-> exists a, r = Ok a /\ k a = Ok b.
Proof.
  destruct r as [a|e]; simpl.
  - split; [eauto|]. by intros (? & [= <-] & ?).
  - split; [done|]. by intros (? & ? & _).
Qed.

Lemma read_init_fields topic subscription il wa ts rd :
  ReadFromPubSub.__init__ topic subscription il wa ts = Ok rd ->
  ReadFromPubSub.with_attributes rd = wa /\
  _PubSubSource.full_topic (ReadFromPubSub._source rd) = topic /\
  _PubSubSource.full_subscription (ReadFromPubSub._source rd) = subscription /\
  _PubSubSource.id_label (ReadFromPubSub._source rd) = il /\
  _PubSubSource.timestamp_attribute (ReadFromPubSub._source rd) = ts.
Proof.
  unfold ReadFromPubSub.__init__, _PubSubSource.__init__.
  destruct (negb _); [discriminate|]. destruct (_ && _); [discriminate|].
  destruct (if_str topic) as [t|], (if_str subscription) as [s|]; simpl.
  - destruct (parse_topic t) as [[??]|]; [|discriminate]. simpl.
    destruct (parse_subscription s) as [[??]|]; [|discriminate]. simpl.
    by intros [= <-].
  - destruct (parse_topic t) as [[??]|]; [|discriminate]. simpl. by intros [= <-].
  - destruct (parse_subscription s) as [[??]|]; [|discriminate]. simpl.
    by intros [= <-].
  - by intros [= <-].
Qed.

(** The [ReadFromPubSub] of round [i] is built for [source] as its topic or
    as its subscription, with the [i]-th id label and timestamp attribute. *)
Lemma read_of_source_inv self i source name rd :
  MultipleReadFromPubSub.read_of_source self i source = Ok (name, rd) ->
  exists il ts,
    MultipleReadFromPubSub.id_label self !! i = Some il /\
    MultipleReadFromPubSub.timestamp_attribute self !! i = Some ts /\
    (ReadFromPubSub.__init__ (Some source) None il
       (MultipleReadFromPubSub.with_attributes self) ts = Ok rd \/
     ReadFromPubSub.__init__ None (Some source) il
       (MultipleReadFromPubSub.with_attributes self) ts = Ok rd).
Proof.
  unfold MultipleReadFromPubSub.read_of_source.
  intros (il & Hil%index_Ok & H)%bind_Ok.
  apply bind_Ok in H as (ts & Hts%index_Ok & H).
  apply bind_Ok in H as (sp & _ & H).
  apply bind_Ok in H as (st & _ & H).
  apply bind_Ok in H as (sn & _ & H).
  apply bind_Ok in H as (read & Hread & [= _ <-]).
  exists il, ts. split; [done|]. split; [done|].
  unfold MultipleReadFromPubSub.ReadFromPubSub_kwargs in Hread.
  destruct (map_to_list _) as [|[? ?] ?];
    [|by destruct (String.eqb st "topics")].
  destruct (String.eqb st "topics"); auto.
Qed.

(** ** The wire format *)
Section wire.
Import pubsub_pb2.

Lemma nat_of_byte_of_nat n : n < 256 -> nat_of_byte (byte_of_nat n) = n.
Proof.
  intros Hn. unfold nat_of_byte, byte_of_nat.
  rewrite ascii_of_byte_of_ascii. by apply nat_ascii_embedding.
Qed.

Lemma decode_encode_varint_fuel fuel : forall n rest,
  n < fuel -> decode_varint (encode_varint_fuel fuel n ++ rest) = Some (n, rest).
Proof.
  induction fuel as [|fuel IH]; intros n rest Hn; [lia|].
  cbn [encode_varint_fuel]. destruct (n <? 128) eqn:E.
  - apply Nat.ltb_lt in E. cbn [app decode_varint].
    rewrite nat_of_byte_of_nat by lia.
    apply Nat.ltb_lt in E. by rewrite E.
  - apply Nat.ltb_ge in E. cbn [app decode_varint].
    pose proof (Nat.mod_upper_bound n 128 ltac:(lia)) as Hmod.
    rewrite nat_of_byte_of_nat by lia.
    destruct (128 + n mod 128 <? 128) eqn:E'; [apply Nat.ltb_lt in E'; lia|].
    rewrite IH.
    + cbn [mbind option_bind]. f_equal. f_equal.
      pose proof (Nat.div_mod_eq n 128). lia.
    + assert (n / 128 < n) by (apply Nat.div_lt; lia). lia.
Qed.

Lemma decode_encode_varint n rest :
  decode_varint (encode_varint n ++ rest) = Some (n, rest).
Proof. apply decode_encode_varint_fuel. lia. Qed.

Lemma encode_varint_length n : 1 <= length (encode_varint n).
Proof.
  unfold encode_varint. cbn [encode_varint_fuel].
  destruct (n <? 128); simpl; lia.
Qed.

Lemma read_write_field number b rest :
  number <> 0 ->
  read_field (write_field (number, LengthDelimited b) ++ rest)
  = Some (number, LengthDelimited b, rest).
Proof.
  intros Hn. unfold read_field, write_field.
  cbn [fst snd wire_type]. rewrite <- !app_assoc.
  rewrite decode_encode_varint. cbn [mbind option_bind].
  assert ((8 * number + 2) / 8 = number) as ->
    by (symmetry; apply (Nat.div_unique _ 8 number 2); lia).
  assert ((8 * number + 2) mod 8 = 2) as ->
    by (symmetry; apply (Nat.mod_unique _ 8 number 2); lia).
  destruct (Nat.eqb_spec number 0); [done|].
  rewrite decode_encode_varint. cbn [mbind option_bind].
  destruct (length (b ++ rest) <? length b) eqn:E.
  { apply Nat.ltb_lt in E. rewrite length_app in E. lia. }
  by rewrite take_app_length, drop_app_length.
Qed.

Lemma write_field_length f : 1 <= length (write_field f).
Proof.
  unfold write_field. rewrite length_app.
  pose proof (encode_varint_length (8 * f.1 + wire_type f.2)). lia.
Qed.


Lemma read_write_fields fs : forall fuel,
  Forall delimited fs ->
  length (mjoin (write_field <$> fs)) <= fuel ->
  read_fields_fuel fuel (mjoin (write_field <$> fs)) = Some fs.
Proof.
  induction fs as [|[number v] fs IH]; intros fuel Hfs Hfuel;
    [by destruct fuel|].
  apply Forall_cons in Hfs as [[Hn [b Hb]] Hfs]. simpl in Hn, Hb. subst v.
  change (mjoin (write_field <$> (number, LengthDelimited b) :: fs))
    with (write_field (number, LengthDelimited b) ++ mjoin (write_field <$> fs))
    in Hfuel |- *.
  pose proof (write_field_length (number, LengthDelimited b)) as Hlen.
  rewrite length_app in Hfuel.
  destruct (write_field (number, LengthDelimited b) ++ mjoin (write_field <$> fs))
    as [|x xs] eqn:E.
  { apply (f_equal length) in E. rewrite length_app in E. simpl in E. lia. }
  destruct fuel as [|fuel]; [lia|].
  cbn [read_fields_fuel]. rewrite <- E, read_write_field by done.
  cbn [mbind option_bind]. rewrite IH; [done|done|lia].
Qed.

Lemma read_written_fields fs :
  Forall delimited fs -> read_fields (mjoin (write_field <$> fs)) = Some fs.
Proof. intros Hfs. by apply read_write_fields. Qed.

Lemma parse_written_entry (e : string * string) :
  parse_entry (write_field (1, LengthDelimited (list_byte_of_string e.1)) ++
               write_field (2, LengthDelimited (list_byte_of_string e.2)))
  = Some e.
Proof.
  unfold parse_entry.
  pose proof (read_written_fields
                [(1, LengthDelimited (list_byte_of_string e.1));
                 (2, LengthDelimited (list_byte_of_string e.2))]) as H.
  cbn [fmap list_fmap mjoin list_join] in H. rewrite app_nil_r in H.
  rewrite H.
  - cbn. rewrite !string_of_list_byte_of_string. by destruct e.
  - repeat constructor; try done; by eexists.
Qed.

Lemma merge_written_entries es : forall msg,
  merge_fields msg (write_entry <$> es)
  = Some (foldl (fun msg kv => set_attribute msg kv.1 kv.2) msg es).
Proof.
  induction es as [|e es IH]; intros msg; [done|].
  rewrite fmap_cons. unfold write_entry at 1. cbn [merge_fields].
  rewrite parse_written_entry. destruct e as [k v].
  cbn [mbind option_bind]. apply IH.
Qed.

Lemma write_entry_delimited es : Forall delimited (write_entry <$> es).
Proof.
  apply Forall_fmap, Forall_forall. intros e _. split; [done|]. by eexists.
Qed.

(** Assigning the items of a dict one by one builds the dict. *)
Lemma set_attributes_items (l : list (string * string)) : forall msg,
  NoDup l.*1 ->
  foldl (fun msg kv => set_attribute msg kv.1 kv.2) msg l
  = mk (data msg) (list_to_map l ∪ attributes msg).
Proof.
  induction l as [|[k v] l IH]; intros msg Hl.
  - simpl. rewrite (left_id ∅ _). by destruct msg.
  - apply NoDup_cons in Hl as [Hk Hl]. cbn [foldl]. rewrite IH by done.
    cbn [set_attribute data attributes fst snd list_to_map foldr uncurry].
    f_equal. rewrite <- insert_union_l. symmetry. apply insert_union_r.
    by apply not_elem_of_list_to_map_1.
Qed.

Lemma set_attributes_map (a : gmap string string) d :
  foldl (fun msg kv => set_attribute msg kv.1 kv.2) (mk d ∅) (map_to_list a)
  = mk d a.
Proof.
  rewrite set_attributes_items by apply NoDup_fst_map_to_list.
  cbn [data attributes]. by rewrite (right_id ∅ _), list_to_map_to_list.
Qed.

(** Parsing what was serialized gives the message back. *)
Lemma parse_serialized msg : ParseFromString (SerializeToString msg) = Some msg.
Proof.
  destruct msg as [d a]. unfold ParseFromString, SerializeToString.
  cbn [data attributes].
  set (es := map_to_list a).
  assert (mjoin (map (fun e => write_field (write_entry e)) es)
          = mjoin (write_field <$> (write_entry <$> es))) as ->.
  { f_equal. by rewrite <- list_fmap_compose. }
  destruct d as [|x d].
  - rewrite app_nil_l, read_written_fields by apply write_entry_delimited.
    cbn [mbind option_bind]. rewrite merge_written_entries.
    f_equal. apply set_attributes_map.
  - change (write_field (1, LengthDelimited (x :: d)) ++
            mjoin (write_field <$> (write_entry <$> es)))
      with (mjoin (write_field <$>
                     ((1, LengthDelimited (x :: d)) :: (write_entry <$> es)))).
    rewrite read_written_fields.
    + cbn [mbind option_bind merge_fields]. rewrite merge_written_entries.
      f_equal. apply set_attributes_map.
    + constructor; [|apply write_entry_delimited]. split; [done|]. by eexists.
Qed.

End wire.

(** ** Encoding and decoding a message *)

Lemma message_init_data d a :
  PubsubMessage.__init__ (Some d) a = Ok (mkPubsubMessage (Some d) a).
Proof. unfold PubsubMessage.__init__. by rewrite bool_decide_false. Qed.

(** A decoded message has a [data] and an [attributes] that are not None. *)
Lemma from_proto_str_fields bs m :
  PubsubMessage._from_proto_str bs = Ok m ->
  exists d a, m = mkPubsubMessage (Some d) (Some a).
Proof.
  unfold PubsubMessage._from_proto_str.
  destruct (pubsub_pb2.ParseFromString bs) as [msg|]; [|discriminate].
  rewrite message_init_data. intros [= <-]. by eexists _, _.
Qed.

Lemma to_proto_str_data d a :
  PubsubMessage._to_proto_str (mkPubsubMessage (Some d) (Some a))
  = Ok (pubsub_pb2.SerializeToString (pubsub_pb2.mk d a)).
Proof.
  unfold PubsubMessage._to_proto_str. cbn [data attributes mbind result_bind].
  unfold pubsub_pb2.new, pubsub_pb2.set_data. cbn [pubsub_pb2.attributes].
  by rewrite set_attributes_map.
Qed.

(** C1, as stated, fails on a message without [data]: it is a valid
    message, [_to_proto_str] raises on it, and no bytes decode to a message
    equal to it, since [_from_proto_str] always sets [data]. *)
Lemma message_round_trip_fails_without_data :
  let m := mkPubsubMessage None (Some {["k" := "v"]}) in
  PubsubMessage.__init__ None (Some {["k" := "v"]}) = Ok m /\
  PubsubMessage._to_proto_str m = Err TypeError_bytes_field /\
  (forall bs m',
      PubsubMessage._from_proto_str bs = Ok m' ->
      PubsubMessage.__eq__ m' (PyMessage m) = false) /\
  ~ (exists bs m',
        PubsubMessage._to_proto_str m = Ok bs /\
        PubsubMessage._from_proto_str bs = Ok m' /\
        PubsubMessage.__eq__ m' (PyMessage m) = true).
Proof.
  intros m. split.
  { rewrite message_init_decide, bool_decide_false; [done|].
    intros [_ [H|H]]; [done|]. apply (inj Some) in H.
    apply (f_equal (fun x : gmap string string => x !! "k")) in H.
    by rewrite lookup_singleton_eq, lookup_empty in H. }
  split; [done|]. split.
  - intros bs m' (d & a & ->)%from_proto_str_fields. done.
  - intros (bs & m' & H & _). discriminate H.
Qed.

(** C1, amended. For a message with a [data] and an [attributes] that are
    not None, [_to_proto_str] returns bytes and [_from_proto_str] of these
    bytes returns a message equal to it. *)
Theorem message_round_trip (d : bytes) (a : gmap string string)
    (m : PubsubMessage_obj) :
  PubsubMessage.__init__ (Some d) (Some a) = Ok m ->
  exists bs m',
    PubsubMessage._to_proto_str m = Ok bs /\
    PubsubMessage._from_proto_str bs = Ok m' /\
    PubsubMessage.__eq__ m' (PyMessage m) = true /\
    m' = m.
Proof.
  rewrite message_init_data. intros [= <-].
  eexists _, (mkPubsubMessage (Some d) (Some a)).
  split; [apply to_proto_str_data|]. split; [|split; [|done]].
  - unfold PubsubMessage._from_proto_str. rewrite parse_serialized.
    cbn [pubsub_pb2.data pubsub_pb2.attributes].
    by rewrite list_to_map_to_list, message_init_data.
  - cbn. by rewrite !bool_decide_true.
Qed.

Lemma message_round_trip_witness :
  exists bs m',
    PubsubMessage._to_proto_str
      (mkPubsubMessage (Some [x64; x61]) (Some {["k" := "v"]})) = Ok bs /\
    PubsubMessage._from_proto_str bs = Ok m' /\
    PubsubMessage.__eq__ m'
      (PyMessage (mkPubsubMessage (Some [x64; x61]) (Some {["k" := "v"]}))) = true /\
    m' = mkPubsubMessage (Some [x64; x61]) (Some {["k" := "v"]}).
Proof.
  apply (message_round_trip [x64; x61] {["k" := "v"]}). reflexivity.
Defined.

(** * Further properties *)

(** ** What the parsers return *)

Lemma project_id_grammar_intro first middle last :
  re.lower first = true ->
  Forall (fun a => re.project_char a = true) middle ->
  4 <= length middle <= 61 ->
  re.lower_digit last = true ->
  project_id_grammar (string_of_list_ascii (first :: middle ++ [last])) = true.
Proof.
  intros H1 H2 [H3 H3'] H4. unfold project_id_grammar.
  rewrite list_ascii_of_string_of_list_ascii, reverse_app, reverse_singleton.
  cbn [app]. rewrite length_reverse.
  rewrite H1, H4, andb_true_r. cbn [andb].
  apply andb_true_intro; split; [apply andb_true_intro; split|].
  - apply forallb_forall. intros a Ha.
    apply list_elem_of_In in Ha. rewrite elem_of_reverse in Ha.
    rewrite Forall_forall in H2. by apply H2.
  - by apply Nat.leb_le.
  - by apply Nat.leb_le.
Qed.

(** The check of the project id succeeds only on a string that starts with
    a project id of the grammar. *)
Lemma project_match_prefix p :
  is_Some (re.match_ PROJECT_ID_REGEXP p) -> has_project_id_prefix p.
Proof.
  unfold re.match_, PROJECT_ID_REGEXP. rewrite fmap_is_Some.
  rewrite <- (string_of_list_ascii_of_string p) at 2.
  destruct (list_ascii_of_string p) as [|first tl]; cbn [re.match_at];
    [by intros [? ?]|].
  destruct (re.lower first) eqn:H1; [|by intros [? ?]].
  intros [g Hg]. apply try_down_Some in Hg as (k & Hk & Hf & _).
  destruct (drop k tl) as [|last rest] eqn:Hdrop; [discriminate|].
  destruct (re.lower_digit last) eqn:H4; [|discriminate].
  assert (k <= re.run re.project_char tl /\ k <= 61) as [Hrun H61].
  { unfold re.reach in Hk. lia. }
  pose proof (re_run_le := run_le_length re.project_char tl).
  exists (string_of_list_ascii (first :: take k tl ++ [last])),
         (string_of_list_ascii rest).
  split.
  - rewrite <- string_of_list_ascii_app. f_equal. simpl. f_equal.
    rewrite <- app_assoc. simpl. by rewrite <- Hdrop, take_drop.
  - apply project_id_grammar_intro; [done|by apply take_run| |done].
    rewrite length_take. lia.
Qed.

Lemma project_match_iff p :
  is_Some (re.match_ PROJECT_ID_REGEXP p) <-> has_project_id_prefix p.
Proof.
  split; [apply project_match_prefix|].
  intros (q & rest & -> & Hq). by apply project_id_grammar_prefix_match.
Qed.

(** The two ways [parse_topic] goes. *)
Lemma parse_topic_cases s :
  (re.match_ TOPIC_REGEXP s = None /\ parse_topic s = Err (ValueError_topic_form s)) \/
  (exists p n rest,
      s = "projects/" +:+ p +:+ "/topics/" +:+ n +:+ rest /\
      p <> "" /\ no_char "/" p /\ n <> "" /\ no_char "010" n /\
      (rest = "" \/ exists r, rest = String "010" r) /\
      parse_topic s
      = if bool_decide (is_Some (re.match_ PROJECT_ID_REGEXP p))
        then Ok (p, n) else Err (ValueError_project_name p)).
Proof.
  destruct (re.match_ TOPIC_REGEXP s) as [gs|] eqn:E.
  - right. pose proof E as E'. rewrite TOPIC_REGEXP_pattern in E'.
    apply match_address_inv in E'
      as (p & n & rest & -> & Hs & Hp & Hps & Hn & Hns & Hrest).
    exists p, n, rest. repeat (split; [done|]). by apply parse_topic_matched.
  - left. split; [done|]. by apply parse_topic_unmatched.
Qed.

Lemma parse_subscription_cases s :
  (re.match_ SUBSCRIPTION_REGEXP s = None /\
   parse_subscription s = Err (ValueError_subscription_form s)) \/
  (exists p n rest,
      s = "projects/" +:+ p +:+ "/subscriptions/" +:+ n +:+ rest /\
      p <> "" /\ no_char "/" p /\ n <> "" /\ no_char "010" n /\
      (rest = "" \/ exists r, rest = String "010" r) /\
      parse_subscription s
      = if bool_decide (is_Some (re.match_ PROJECT_ID_REGEXP p))
        then Ok (p, n) else Err (ValueError_project_name p)).
Proof.
  destruct (re.match_ SUBSCRIPTION_REGEXP s) as [gs|] eqn:E.
  - right. pose proof E as E'. rewrite SUBSCRIPTION_REGEXP_pattern in E'.
    apply match_address_inv in E'
      as (p & n & rest & -> & Hs & Hp & Hps & Hn & Hns & Hrest).
    exists p, n, rest. repeat (split; [done|]).
    by apply parse_subscription_matched.
  - left. split; [done|]. by apply parse_subscription_unmatched.
Qed.

(** X1. What a result of [parse_topic] tells about its argument. A returned
    pair is the two segments of a prefix "projects/<project>/topics/<name>"
    of the argument, which ends there or goes on with a line feed; the
    project is not empty, has no '/', and starts with a project id of the
    grammar; the name is not empty and has no line feed. The error about the
    project names the project segment of the argument, which does not start
    with a project id of the grammar. There is no other error than this one
    and the one about the form of the argument. *)
Theorem parse_topic_outcomes (s : string) :
  (forall p n,
      parse_topic s = Ok (p, n) ->
      (exists rest,
          s = "projects/" +:+ p +:+ "/topics/" +:+ n +:+ rest /\
          (rest = "" \/ exists r, rest = String "010" r)) /\
      p <> "" /\ no_char "/" p /\ n <> "" /\ no_char "010" n /\
      has_project_id_prefix p) /\
  (forall q,
      parse_topic s = Err (ValueError_project_name q) ->
      (exists n rest, s = "projects/" +:+ q +:+ "/topics/" +:+ n +:+ rest) /\
      no_char "/" q /\ ~ has_project_id_prefix q) /\
  (forall e,
      parse_topic s = Err e ->
      e = ValueError_topic_form s \/ exists q, e = ValueError_project_name q).
Proof.
  destruct (parse_topic_cases s)
    as [[_ ->]|(p & n & rest & Hs & Hp & Hps & Hn & Hns & Hrest & ->)].
  - split; [done|]. split; [done|]. intros e [= <-]. by left.
  - case_bool_decide as Hm.
    + split; [|split; [done|done]].
      intros p' n' [= <- <-]. split; [by exists rest|].
      repeat (split; [done|]). by apply project_match_iff.
    + split; [done|]. split.
      * intros q [= <-]. split; [by exists n, rest|]. split; [done|].
        by rewrite <- project_match_iff.
      * intros e [= <-]. right. by eexists.
Qed.

Lemma parse_topic_outcomes_witness :
  (exists rest,
      "projects/my-project-1/topics/my-topic"
      = "projects/" +:+ "my-project-1" +:+ "/topics/" +:+ "my-topic" +:+ rest /\
      (rest = "" \/ exists r, rest = String "010" r)) /\
  ~ has_project_id_prefix "ab".
Proof.
  split.
  - apply (proj1 (parse_topic_outcomes "projects/my-project-1/topics/my-topic")
             "my-project-1" "my-topic"). reflexivity.
  - apply (proj1 (proj2 (parse_topic_outcomes "projects/ab/topics/t")) "ab").
    reflexivity.
Defined.

(** X2. The same for [parse_subscription], with "/subscriptions/" between
    the two segments. *)
Theorem parse_subscription_outcomes (s : string) :
  (forall p n,
      parse_subscription s = Ok (p, n) ->
      (exists rest,
          s = "projects/" +:+ p +:+ "/subscriptions/" +:+ n +:+ rest /\
          (rest = "" \/ exists r, rest = String "010" r)) /\
      p <> "" /\ no_char "/" p /\ n <> "" /\ no_char "010" n /\
      has_project_id_prefix p) /\
  (forall q,
      parse_subscription s = Err (ValueError_project_name q) ->
      (exists n rest, s = "projects/" +:+ q +:+ "/subscriptions/" +:+ n +:+ rest) /\
      no_char "/" q /\ ~ has_project_id_prefix q) /\
  (forall e,
      parse_subscription s = Err e ->
      e = ValueError_subscription_form s \/ exists q, e = ValueError_project_name q).
Proof.
  destruct (parse_subscription_cases s)
    as [[_ ->]|(p & n & rest & Hs & Hp & Hps & Hn & Hns & Hrest & ->)].
  - split; [done|]. split; [done|]. intros e [= <-]. by left.
  - case_bool_decide as Hm.
    + split; [|split; [done|done]].
      intros p' n' [= <- <-]. split; [by exists rest|].
      repeat (split; [done|]). by apply project_match_iff.
    + split; [done|]. split.
      * intros q [= <-]. split; [by exists n, rest|]. split; [done|].
        by rewrite <- project_match_iff.
      * intros e [= <-]. right. by eexists.
Qed.

Lemma parse_subscription_outcomes_witness :
  (exists rest,
      "projects/my-project-1/subscriptions/my-sub"
      = "projects/" +:+ "my-project-1" +:+ "/subscriptions/" +:+ "my-sub" +:+ rest /\
      (rest = "" \/ exists r, rest = String "010" r)) /\
  ~ has_project_id_prefix "ab".
Proof.
  split.
  - apply (proj1 (parse_subscription_outcomes
                    "projects/my-project-1/subscriptions/my-sub")
             "my-project-1" "my-sub"). reflexivity.
  - apply (proj1 (proj2 (parse_subscription_outcomes
                           "projects/ab/subscriptions/s")) "ab").
    reflexivity.
Defined.

(** X3. On an address whose project segment is not empty and has no '/',
    and whose name is not empty and has no line feed, both parsers return
    the two segments if the project segment starts with a project id of the
    grammar, and raise the error about the project otherwise. *)
Theorem project_check_accepts_prefix (p n : string) :
  p <> "" -> no_char "/" p -> n <> "" -> no_char "010" n ->
  (has_project_id_prefix p ->
   parse_topic ("projects/" +:+ p +:+ "/topics/" +:+ n) = Ok (p, n) /\
   parse_subscription ("projects/" +:+ p +:+ "/subscriptions/" +:+ n) = Ok (p, n)) /\
  (~ has_project_id_prefix p ->
   parse_topic ("projects/" +:+ p +:+ "/topics/" +:+ n)
   = Err (ValueError_project_name p) /\
   parse_subscription ("projects/" +:+ p +:+ "/subscriptions/" +:+ n)
   = Err (ValueError_project_name p)).
Proof.
  intros Hp Hps Hn Hns.
  rewrite (parse_topic_matched _ p n)
    by (rewrite TOPIC_REGEXP_pattern; by apply match_address).
  rewrite (parse_subscription_matched _ p n)
    by (rewrite SUBSCRIPTION_REGEXP_pattern; by apply match_address).
  split; intros H.
  - rewrite bool_decide_true by (by apply project_match_iff). done.
  - rewrite bool_decide_false by (by rewrite project_match_iff). done.
Qed.

Lemma project_check_accepts_prefix_witness :
  parse_topic ("projects/" +:+ "my-project-" +:+ "/topics/" +:+ "t")
  = Ok ("my-project-", "t") /\
  parse_subscription ("projects/" +:+ "my-project-" +:+ "/subscriptions/" +:+ "t")
  = Ok ("my-project-", "t").
Proof.
  apply (proj1 (project_check_accepts_prefix "my-project-" "t"
                  ltac:(discriminate)
                  ltac:(unfold no_char; simpl; repeat constructor; discriminate)
                  ltac:(discriminate)
                  ltac:(unfold no_char; simpl; repeat constructor; discriminate))).
  exists "my-project", "-". split; reflexivity.
Defined.

(** X4. For a string [s] that is "projects/", a project id of the grammar,
    "/subscriptions/" and a non-empty name without a line feed,
    [parse_subscription s] returns that project id and that name, which
    re-join to [s]. A string that does not start as the subscription pattern
    requires is refused with the error about the form of the subscription. *)
Theorem parse_subscription_rejoin (s : string) :
  (forall project name,
      s = "projects/" +:+ project +:+ "/subscriptions/" +:+ name ->
      project_id_grammar project = true ->
      name <> "" -> no_char "010" name ->
      exists p n, parse_subscription s = Ok (p, n) /\ p = project /\ n = name /\
                  "projects/" +:+ p +:+ "/subscriptions/" +:+ n = s) /\
  (~ address_shaped "/subscriptions/" s ->
   parse_subscription s = Err (ValueError_subscription_form s) /\
   kind (ValueError_subscription_form s) = InvalidFormat).
Proof.
  split.
  - intros project name -> Hg Hn Hns.
    destruct (project_id_grammar_no_slash _ Hg) as [Hp Hps].
    exists project, name. split; [|done].
    rewrite (parse_subscription_matched _ project name).
    + rewrite bool_decide_true; [done|]. by apply project_id_grammar_match.
    + rewrite SUBSCRIPTION_REGEXP_pattern. by apply match_address.
  - intros Hs. split; [|done]. apply parse_subscription_unmatched.
    destruct (re.match_ SUBSCRIPTION_REGEXP s) eqn:E; [|done].
    exfalso. apply Hs. apply address_shaped_iff.
    rewrite <- SUBSCRIPTION_REGEXP_pattern, E. by eexists.
Qed.

Lemma parse_subscription_rejoin_witness :
  (exists p n,
      parse_subscription "projects/my-project-1/subscriptions/my-sub" = Ok (p, n) /\
      p = "my-project-1" /\ n = "my-sub" /\
      "projects/" +:+ p +:+ "/subscriptions/" +:+ n
      = "projects/my-project-1/subscriptions/my-sub") /\
  parse_subscription "projects/my-project-1/topics/t"
  = Err (ValueError_subscription_form "projects/my-project-1/topics/t") /\
  kind (ValueError_subscription_form "projects/my-project-1/topics/t")
  = InvalidFormat.
Proof.
  split.
  - apply (proj1 (parse_subscription_rejoin
                    "projects/my-project-1/subscriptions/my-sub")
             "my-project-1" "my-sub").
    + reflexivity.
    + reflexivity.
    + discriminate.
    + unfold no_char. simpl. repeat constructor; discriminate.
  - apply (proj2 (parse_subscription_rejoin "projects/my-project-1/topics/t")).
    intros H. apply address_shaped_iff in H. vm_compute in H.
    destruct H as [x H]. discriminate H.
Defined.

(** ** Splitting an address *)

Lemma split_app_sep sep a b :
  no_char sep a -> split sep (a +:+ String sep b) = a :: split sep b.
Proof.
  unfold no_char. induction a as [|c a IH]; intros Ha.
  - change ("" +:+ String sep b) with (String sep b). simpl.
    by rewrite Ascii.eqb_refl.
  - change (String c a +:+ String sep b) with (String c (a +:+ String sep b)).
    simpl in Ha. apply Forall_cons in Ha as [Hc Ha].
    cbn [split]. destruct (Ascii.eqb_spec c sep); [done|].
    by rewrite IH.
Qed.

Lemma split_not_nil sep s : split sep s <> [].
Proof.
  induction s as [|c s IH]; simpl; [done|].
  destruct (Ascii.eqb c sep); [done|]. by destruct (split sep s).
Qed.

(** The segments of a string that starts as an address pattern requires. *)
Lemma split_address m p c rest :
  no_char "/" m -> no_char "/" p ->
  split "/" ("projects/" +:+ p +:+ String "/" (m +:+ String "/" "") +:+ String c rest)
  = "projects" :: p :: m :: split "/" (String c rest).
Proof.
  intros Hm Hp.
  change ("projects/" +:+ p +:+ String "/" (m +:+ String "/" "") +:+ String c rest)
    with ("projects" +:+ String "/"
            (p +:+ String "/" ((m +:+ String "/" "") +:+ String c rest))).
  rewrite split_app_sep
    by (unfold no_char; simpl; repeat constructor; discriminate).
  rewrite split_app_sep by done.
  assert ((m +:+ String "/" "") +:+ String c rest = m +:+ String "/" (String c rest))
    as ->.
  { clear. induction m as [|a m IH]; [done|].
    change ((String a m +:+ String "/" "") +:+ String c rest)
      with (String a ((m +:+ String "/" "") +:+ String c rest)).
    by rewrite IH. }
  by rewrite split_app_sep.
Qed.

Lemma split_shaped m s :
  no_char "/" m ->
  address_shaped (String "/" (m +:+ String "/" "")) s ->
  exists p tl, split "/" s = "projects" :: p :: m :: tl /\ tl <> [].
Proof.
  intros Hm (p & c & rest & -> & _ & Hp & _).
  exists p, (split "/" (String c rest)).
  split; [by apply split_address|apply split_not_nil].
Qed.

Lemma topic_shaped_split s :
  address_shaped "/topics/" s ->
  exists p tl, split "/" s = "projects" :: p :: "topics" :: tl /\ tl <> [].
Proof.
  apply (split_shaped "topics").
  unfold no_char; simpl; repeat constructor; discriminate.
Qed.

Lemma subscription_shaped_split s :
  address_shaped "/subscriptions/" s ->
  exists p tl, split "/" s = "projects" :: p :: "subscriptions" :: tl /\ tl <> [].
Proof.
  apply (split_shaped "subscriptions").
  unfold no_char; simpl; repeat constructor; discriminate.
Qed.

Lemma shaped_exclusive s :
  address_shaped "/topics/" s -> address_shaped "/subscriptions/" s -> False.
Proof.
  intros (p1 & tl1 & H1 & _)%topic_shaped_split
         (p2 & tl2 & H2 & _)%subscription_shaped_split.
  rewrite H1 in H2. discriminate H2.
Qed.

Lemma parse_topic_Ok_shaped s r : parse_topic s = Ok r -> address_shaped "/topics/" s.
Proof.
  intros H. apply address_shaped_iff. rewrite <- TOPIC_REGEXP_pattern.
  destruct (parse_topic_cases s) as [[_ E]|(p & n & rest & _ & _ & _ & _ & _ & _ & _)];
    [congruence|].
  destruct (re.match_ TOPIC_REGEXP s) eqn:E; [by eexists|].
  apply parse_topic_unmatched in E. congruence.
Qed.

Lemma parse_subscription_Ok_shaped s r :
  parse_subscription s = Ok r -> address_shaped "/subscriptions/" s.
Proof.
  intros H. apply address_shaped_iff. rewrite <- SUBSCRIPTION_REGEXP_pattern.
  destruct (re.match_ SUBSCRIPTION_REGEXP s) eqn:E; [by eexists|].
  apply parse_subscription_unmatched in E. congruence.
Qed.

Lemma not_shaped_topic_error s :
  ~ address_shaped "/topics/" s -> parse_topic s = Err (ValueError_topic_form s).
Proof.
  intros Hs. apply parse_topic_unmatched.
  destruct (re.match_ TOPIC_REGEXP s) eqn:E; [|done].
  exfalso. apply Hs, address_shaped_iff.
  rewrite <- TOPIC_REGEXP_pattern, E. by eexists.
Qed.

Lemma not_shaped_subscription_error s :
  ~ address_shaped "/subscriptions/" s ->
  parse_subscription s = Err (ValueError_subscription_form s).
Proof.
  intros Hs. apply parse_subscription_unmatched.
  destruct (re.match_ SUBSCRIPTION_REGEXP s) eqn:E; [|done].
  exfalso. apply Hs, address_shaped_iff.
  rewrite <- SUBSCRIPTION_REGEXP_pattern, E. by eexists.
Qed.

(** X5. No string is both a topic and a subscription: what [parse_topic]
    returns a pair for, [parse_subscription] refuses for its form, and the
    other way round. *)
Theorem topic_and_subscription_exclusive (s : string) :
  (forall r, parse_topic s = Ok r ->
             parse_subscription s = Err (ValueError_subscription_form s)) /\
  (forall r, parse_subscription s = Ok r ->
             parse_topic s = Err (ValueError_topic_form s)).
Proof.
  split; intros r H.
  - apply not_shaped_subscription_error. intros Hs.
    apply parse_topic_Ok_shaped in H. by apply (shaped_exclusive s).
  - apply not_shaped_topic_error. intros Hs.
    apply parse_subscription_Ok_shaped in H. by apply (shaped_exclusive s).
Qed.

Lemma topic_and_subscription_exclusive_witness :
  parse_subscription "projects/my-project-1/topics/t"
  = Err (ValueError_subscription_form "projects/my-project-1/topics/t").
Proof.
  apply (proj1 (topic_and_subscription_exclusive "projects/my-project-1/topics/t")
           ("my-project-1", "t")).
  reflexivity.
Defined.

(** ** Building a multi-source reader *)

Lemma matched_topic_shaped s :
  MultipleReadFromPubSub.matched (re.match_ TOPIC_REGEXP s) = true
  <-> address_shaped "/topics/" s.
Proof.
  rewrite address_shaped_iff, <- TOPIC_REGEXP_pattern.
  destruct (re.match_ TOPIC_REGEXP s); simpl.
  - split; [intros _; by eexists|done].
  - split; [done|]. by intros [? ?].
Qed.

Lemma matched_subscription_shaped s :
  MultipleReadFromPubSub.matched (re.match_ SUBSCRIPTION_REGEXP s) = true
  <-> address_shaped "/subscriptions/" s.
Proof.
  rewrite address_shaped_iff, <- SUBSCRIPTION_REGEXP_pattern.
  destruct (re.match_ SUBSCRIPTION_REGEXP s); simpl.
  - split; [intros _; by eexists|done].
  - split; [done|]. by intros [? ?].
Qed.

Lemma source_shaped_matched s :
  source_shaped s
  <-> MultipleReadFromPubSub.matched (re.match_ TOPIC_REGEXP s)
      || MultipleReadFromPubSub.matched (re.match_ SUBSCRIPTION_REGEXP s) = true.
Proof.
  unfold source_shaped.
  rewrite <- matched_topic_shaped, <- matched_subscription_shaped.
  by rewrite orb_true_iff.
Qed.

Lemma check_sources_shaped source rest :
  source_shaped source ->
  MultipleReadFromPubSub.check_sources (source :: rest)
  = MultipleReadFromPubSub.check_sources rest.
Proof.
  intros H%source_shaped_matched. cbn [MultipleReadFromPubSub.check_sources].
  by rewrite H.
Qed.

Lemma check_sources_not_shaped source rest :
  ~ source_shaped source ->
  MultipleReadFromPubSub.check_sources (source :: rest)
  = Err (ValueError_source_form source).
Proof.
  rewrite source_shaped_matched. intros H%not_true_is_false.
  cbn [MultipleReadFromPubSub.check_sources]. by rewrite H.
Qed.

Lemma source_shaped_dec source : source_shaped source \/ ~ source_shaped source.
Proof.
  rewrite source_shaped_matched.
  destruct (_ || _); [by left|by right].
Qed.

Lemma check_sources_Ok sources :
  MultipleReadFromPubSub.check_sources sources = Ok tt
  <-> Forall source_shaped sources.
Proof.
  induction sources as [|source rest IH]; [done|].
  rewrite Forall_cons. destruct (source_shaped_dec source) as [H|H].
  - rewrite check_sources_shaped by done. tauto.
  - rewrite check_sources_not_shaped by done. split; [done|]. by intros [? _].
Qed.

Lemma check_sources_first_bad good bad rest :
  Forall source_shaped good -> ~ source_shaped bad ->
  MultipleReadFromPubSub.check_sources (good ++ bad :: rest)
  = Err (ValueError_source_form bad).
Proof.
  intros Hgood Hbad. induction Hgood as [|source good Hs _ IH]; simpl app.
  - by apply check_sources_not_shaped.
  - by rewrite check_sources_shaped.
Qed.

Lemma per_source_length N arg : fits N arg -> length (per_source N arg) = N.
Proof.
  destruct arg as [v|l]; simpl.
  - intros _. apply length_replicate.
  - intros <-. apply length_fmap.
Qed.

(** [__init__] once the two per-source arguments fit. *)
Lemma fan_out_init_fits source_list with_context id_label with_attributes
    timestamp_attribute kwargs :
  fits (length source_list) id_label ->
  fits (length source_list) timestamp_attribute ->
  MultipleReadFromPubSub.__init__ source_list with_context id_label
    with_attributes timestamp_attribute kwargs
  = (MultipleReadFromPubSub.check_sources source_list ≫= fun _ =>
     match kwargs !! "topic" with
     | Some found => Err (ValueError_topic_kwarg found)
     | None =>
         match kwargs !! "subscription" with
         | Some found => Err (ValueError_subscription_kwarg found)
         | None =>
             Ok (MultipleReadFromPubSub.mk source_list with_context
                   with_attributes kwargs (length source_list)
                   (per_source (length source_list) id_label)
                   (per_source (length source_list) timestamp_attribute))
         end
     end).
Proof.
  intros Hid Hts. unfold MultipleReadFromPubSub.__init__.
  destruct id_label as [v|l], timestamp_attribute as [v'|l']; simpl in *;
    rewrite ?Hid, ?Hts, ?Nat.eqb_refl; done.
Qed.

Lemma fan_out_init_Ok_fits source_list with_context id_label with_attributes
    timestamp_attribute kwargs self :
  MultipleReadFromPubSub.__init__ source_list with_context id_label
    with_attributes timestamp_attribute kwargs = Ok self ->
  fits (length source_list) id_label /\
  fits (length source_list) timestamp_attribute.
Proof.
  unfold MultipleReadFromPubSub.__init__.
  intros (il & Hil & H)%bind_Ok. apply bind_Ok in H as (ts & Hts & _).
  split.
  - destruct id_label as [v|l]; [done|]. simpl.
    destruct (Nat.eqb_spec (length l) (length source_list)); done.
  - destruct timestamp_attribute as [v|l]; [done|]. simpl.
    destruct (Nat.eqb_spec (length l) (length source_list)); done.
Qed.

Lemma fan_out_init_inv source_list with_context id_label with_attributes
    timestamp_attribute kwargs self :
  MultipleReadFromPubSub.__init__ source_list with_context id_label
    with_attributes timestamp_attribute kwargs = Ok self ->
  fits (length source_list) id_label /\
  fits (length source_list) timestamp_attribute /\
  Forall source_shaped source_list /\
  kwargs !! "topic" = None /\ kwargs !! "subscription" = None /\
  self = MultipleReadFromPubSub.mk source_list with_context with_attributes
           kwargs (length source_list)
           (per_source (length source_list) id_label)
           (per_source (length source_list) timestamp_attribute).
Proof.
  intros H. destruct (fan_out_init_Ok_fits _ _ _ _ _ _ _ H) as [Hid Hts].
  rewrite fan_out_init_fits in H by done.
  apply bind_Ok in H as ([] & Hc%check_sources_Ok & H).
  destruct (kwargs !! "topic"); [discriminate|].
  destruct (kwargs !! "subscription"); [discriminate|].
  by injection H as <-.
Qed.

(** X6. When [MultipleReadFromPubSub(...)] can be built. It is built exactly
    when each of [id_label] and [timestamp_attribute] is a scalar or a list
    of as many entries as there are sources, every source starts as a topic
    or as a subscription address, and there is no keyword [topic] or
    [subscription]. What is built then has the sources as given and, for
    each of the two arguments, a list of one entry per source. *)
Theorem fan_out_init_succeeds_iff
    (source_list : list string) (with_context : bool) (id_label : str_or_list)
    (with_attributes : bool) (timestamp_attribute : str_or_list)
    (kwargs : gmap string string) :
  let N := length source_list in
  let init := MultipleReadFromPubSub.__init__ source_list with_context id_label
                with_attributes timestamp_attribute kwargs in
  ((exists self, init = Ok self)
   <-> fits N id_label /\ fits N timestamp_attribute /\
       Forall source_shaped source_list /\
       kwargs !! "topic" = None /\ kwargs !! "subscription" = None) /\
  (forall self,
      init = Ok self ->
      self = MultipleReadFromPubSub.mk source_list with_context with_attributes
               kwargs N (per_source N id_label) (per_source N timestamp_attribute) /\
      length (MultipleReadFromPubSub.id_label self) = N /\
      length (MultipleReadFromPubSub.timestamp_attribute self) = N).
Proof.
  intros N init. subst N init. split; [split|].
  - intros [self H]. apply fan_out_init_inv in H. tauto.
  - intros (Hid & Hts & Hs & Ht & Hsub). rewrite fan_out_init_fits by done.
    apply check_sources_Ok in Hs as ->. simpl. rewrite Ht, Hsub. by eexists.
  - intros self H.
    apply fan_out_init_inv in H as (Hid & Hts & _ & _ & _ & ->).
    split; [done|]. simpl. by rewrite !per_source_length.
Qed.

Lemma fan_out_init_succeeds_iff_witness :
  length (MultipleReadFromPubSub.id_label
            (MultipleReadFromPubSub.mk
               ["projects/my-project-1/topics/a"; "projects/ab/subscriptions/b"]
               true false ∅ 2 [Some "x"; Some "y"] [None; None])) = 2.
Proof.
  apply (proj2 (fan_out_init_succeeds_iff
                  ["projects/my-project-1/topics/a"; "projects/ab/subscriptions/b"]
                  true (PerSource ["x"; "y"]) false (Scalar None) ∅)).
  vm_compute. reflexivity.
Defined.

(** X7. With per-source arguments that fit, a source that starts neither as
    a topic nor as a subscription address makes the construction fail with
    the error about the form of the source, which names the first such
    source of the list, whatever the keywords are. *)
Theorem fan_out_init_first_bad_source
    (good : list string) (bad : string) (rest : list string)
    (with_context : bool) (id_label : str_or_list) (with_attributes : bool)
    (timestamp_attribute : str_or_list) (kwargs : gmap string string) :
  fits (length (good ++ bad :: rest)) id_label ->
  fits (length (good ++ bad :: rest)) timestamp_attribute ->
  Forall source_shaped good ->
  ~ source_shaped bad ->
  MultipleReadFromPubSub.__init__ (good ++ bad :: rest) with_context id_label
    with_attributes timestamp_attribute kwargs
  = Err (ValueError_source_form bad) /\
  kind (ValueError_source_form bad) = InvalidSource.
Proof.
  intros Hid Hts Hgood Hbad. split; [|done].
  rewrite fan_out_init_fits by done.
  by rewrite check_sources_first_bad.
Qed.

Lemma not_shaped_by_match s :
  re.match_ TOPIC_REGEXP s = None -> re.match_ SUBSCRIPTION_REGEXP s = None ->
  ~ source_shaped s.
Proof.
  intros Ht Hs [H|H]; apply address_shaped_iff in H.
  - rewrite <- TOPIC_REGEXP_pattern, Ht in H. by destruct H.
  - rewrite <- SUBSCRIPTION_REGEXP_pattern, Hs in H. by destruct H.
Qed.

Lemma shaped_by_match s :
  is_Some (re.match_ TOPIC_REGEXP s) \/ is_Some (re.match_ SUBSCRIPTION_REGEXP s) ->
  source_shaped s.
Proof.
  intros [H|H]; [left|right]; apply address_shaped_iff.
  - by rewrite <- TOPIC_REGEXP_pattern.
  - by rewrite <- SUBSCRIPTION_REGEXP_pattern.
Qed.

Lemma fan_out_init_first_bad_source_witness :
  MultipleReadFromPubSub.__init__
    (["projects/my-project-1/topics/a"] ++ "projects/p/topic/b" :: ["c"])
    false (Scalar None) false (Scalar None) {["topic" := "t"]}
  = Err (ValueError_source_form "projects/p/topic/b") /\
  kind (ValueError_source_form "projects/p/topic/b") = InvalidSource.
Proof.
  apply fan_out_init_first_bad_source.
  - exact I.
  - exact I.
  - constructor; [|constructor]. apply shaped_by_match. left.
    vm_compute. by eexists.
  - apply not_shaped_by_match; reflexivity.
Defined.

(** X8. With per-source arguments that fit and sources that all start as an
    address, a keyword [topic] makes the construction fail with the error
    that quotes its value, and so does, when there is no [topic], a keyword
    [subscription]. *)
Theorem fan_out_init_address_keyword
    (source_list : list string) (with_context : bool) (id_label : str_or_list)
    (with_attributes : bool) (timestamp_attribute : str_or_list)
    (kwargs : gmap string string) :
  fits (length source_list) id_label ->
  fits (length source_list) timestamp_attribute ->
  Forall source_shaped source_list ->
  let init := MultipleReadFromPubSub.__init__ source_list with_context id_label
                with_attributes timestamp_attribute kwargs in
  (forall found, kwargs !! "topic" = Some found ->
     init = Err (ValueError_topic_kwarg found) /\
     kind (ValueError_topic_kwarg found) = AmbiguousConfiguration) /\
  (forall found, kwargs !! "topic" = None -> kwargs !! "subscription" = Some found ->
     init = Err (ValueError_subscription_kwarg found) /\
     kind (ValueError_subscription_kwarg found) = AmbiguousConfiguration).
Proof.
  intros Hid Hts Hs init. subst init. rewrite fan_out_init_fits by done.
  apply check_sources_Ok in Hs as ->. simpl.
  split.
  - by intros found ->.
  - by intros found -> ->.
Qed.

Lemma fan_out_init_address_keyword_witness :
  MultipleReadFromPubSub.__init__ ["projects/my-project-1/topics/a"]
    false (Scalar None) false (Scalar None) {["subscription" := "s"]}
  = Err (ValueError_subscription_kwarg "s") /\
  kind (ValueError_subscription_kwarg "s") = AmbiguousConfiguration.
Proof.
  apply (proj2 (fan_out_init_address_keyword ["projects/my-project-1/topics/a"]
                  false (Scalar None) false (Scalar None) {["subscription" := "s"]}
                  I I
                  ltac:(constructor; [|constructor]; apply shaped_by_match; left;
                        vm_compute; by eexists)) "s").
  - reflexivity.
  - reflexivity.
Defined.

(** ** Expanding a multi-source reader *)

Lemma shaped_not_empty mid s : address_shaped mid s -> s <> "".
Proof. intros (p & c & rest & -> & _). discriminate. Qed.

Lemma read_init_topic source il wa ts :
  source <> "" ->
  ReadFromPubSub.__init__ (Some source) None il wa ts
  = (fun pn : string * string =>
       ReadFromPubSub.mk wa
         (_PubSubSource.mk (Some source) None (Some pn.2) None il wa ts (Some pn.1)))
    <$> parse_topic source.
Proof.
  intros Hs. unfold ReadFromPubSub.__init__, _PubSubSource.__init__, truthy.
  simpl. destruct (String.eqb_spec source ""); [done|]. simpl.
  by destruct (parse_topic source) as [[p nm]|e].
Qed.

Lemma read_init_subscription source il wa ts :
  source <> "" ->
  ReadFromPubSub.__init__ None (Some source) il wa ts
  = (fun pn : string * string =>
       ReadFromPubSub.mk wa
         (_PubSubSource.mk None (Some source) None (Some pn.2) il wa ts (Some pn.1)))
    <$> parse_subscription source.
Proof.
  intros Hs. unfold ReadFromPubSub.__init__, _PubSubSource.__init__, truthy.
  simpl. destruct (String.eqb_spec source ""); [done|]. simpl.
  by destruct (parse_subscription source) as [[p nm]|e].
Qed.

Lemma index_lookup {A} (l : list A) i x : l !! i = Some x -> index l i = Ok x.
Proof. by apply index_Ok. Qed.

Lemma index_last_cons {A} (x : A) l : exists y, index_last (x :: l) = Ok y.
Proof.
  unfold index_last.
  destruct (last (x :: l)) as [y|] eqn:E; [by eexists|].
  by apply last_None in E.
Qed.

(** The [ReadFromPubSub] of a round, for a source of each shape, when there
    are no keywords. *)
Lemma read_of_source_shaped self i source il ts m :
  MultipleReadFromPubSub.id_label self !! i = Some il ->
  MultipleReadFromPubSub.timestamp_attribute self !! i = Some ts ->
  MultipleReadFromPubSub._kwargs self = ∅ ->
  (exists p tl, split "/" source = "projects" :: p :: m :: tl) ->
  snd <$> MultipleReadFromPubSub.read_of_source self i source
  = if String.eqb m "topics"
    then ReadFromPubSub.__init__ (Some source) None il
           (MultipleReadFromPubSub.with_attributes self) ts
    else ReadFromPubSub.__init__ None (Some source) il
           (MultipleReadFromPubSub.with_attributes self) ts.
Proof.
  intros Hil Hts Hkw (p & tl & Hsplit).
  unfold MultipleReadFromPubSub.read_of_source.
  rewrite (index_lookup _ _ _ Hil), (index_lookup _ _ _ Hts), Hsplit.
  destruct (index_last_cons "projects" (p :: m :: tl)) as [y ->].
  cbn [mbind result_bind index lookup list_lookup].
  unfold MultipleReadFromPubSub.ReadFromPubSub_kwargs.
  rewrite Hkw, map_to_list_empty.
  destruct (String.eqb m "topics").
  - by destruct (ReadFromPubSub.__init__ (Some source) None il _ ts).
  - by destruct (ReadFromPubSub.__init__ None (Some source) il _ ts).
Qed.

Lemma per_source_lookup N arg i :
  fits N arg -> i < N -> exists v, per_source N arg !! i = Some v.
Proof.
  intros Hfit Hi. apply lookup_lt_is_Some. by rewrite per_source_length.
Qed.

Lemma round_dispatch self i source il ts :
  source_shaped source ->
  MultipleReadFromPubSub._kwargs self = ∅ ->
  MultipleReadFromPubSub.id_label self !! i = Some il ->
  MultipleReadFromPubSub.timestamp_attribute self !! i = Some ts ->
  (address_shaped "/topics/" source /\
   snd <$> MultipleReadFromPubSub.read_of_source self i source
   = ReadFromPubSub.__init__ (Some source) None il
       (MultipleReadFromPubSub.with_attributes self) ts) \/
  (address_shaped "/subscriptions/" source /\
   snd <$> MultipleReadFromPubSub.read_of_source self i source
   = ReadFromPubSub.__init__ None (Some source) il
       (MultipleReadFromPubSub.with_attributes self) ts).
Proof.
  intros [H|H] Hkw Hil Hts.
  - left. split; [done|].
    destruct (topic_shaped_split _ H) as (p & tl & Hsplit & _).
    by rewrite (read_of_source_shaped _ i source il ts "topics")
      by (try done; by exists p, tl).
  - right. split; [done|].
    destruct (subscription_shaped_split _ H) as (p & tl & Hsplit & _).
    by rewrite (read_of_source_shaped _ i source il ts "subscriptions")
      by (try done; by exists p, tl).
Qed.

(** X9. In the round of a multi-source reader built without keywords, a
    source that starts as a topic address is read with [topic=source], and
    one that starts as a subscription address with [subscription=source],
    together with the entries of its index of the two per-source lists: the
    round gives the transform, or raises the error, of that call of
    [ReadFromPubSub]. *)
Theorem fan_out_round_dispatch
    (source_list : list string) (with_context : bool) (id_label : str_or_list)
    (with_attributes : bool) (timestamp_attribute : str_or_list)
    (self : MultipleReadFromPubSub.t) (i : nat) (source : string) :
  MultipleReadFromPubSub.__init__ source_list with_context id_label
    with_attributes timestamp_attribute ∅ = Ok self ->
  source_list !! i = Some source ->
  exists il ts,
    per_source (length source_list) id_label !! i = Some il /\
    per_source (length source_list) timestamp_attribute !! i = Some ts /\
    ((address_shaped "/topics/" source /\
      snd <$> MultipleReadFromPubSub.read_of_source self i source
      = ReadFromPubSub.__init__ (Some source) None il with_attributes ts) \/
     (address_shaped "/subscriptions/" source /\
      snd <$> MultipleReadFromPubSub.read_of_source self i source
      = ReadFromPubSub.__init__ None (Some source) il with_attributes ts)).
Proof.
  intros (Hid & Hts & Hs & _ & _ & Hself)%fan_out_init_inv Hi.
  pose proof (lookup_lt_Some _ _ _ Hi) as Hlt.
  destruct (per_source_lookup _ _ _ Hid Hlt) as [il Hil].
  destruct (per_source_lookup _ _ _ Hts Hlt) as [ts Hts'].
  exists il, ts. split; [done|]. split; [done|].
  rewrite Forall_forall in Hs.
  assert (MultipleReadFromPubSub.with_attributes self = with_attributes) as Hwa
    by (by rewrite Hself).
  destruct (round_dispatch self i source il ts) as [[? E]|[? E]].
  - apply Hs. by eapply list_elem_of_lookup_2.
  - by rewrite Hself.
  - by rewrite Hself.
  - by rewrite Hself.
  - left. by rewrite <- Hwa.
  - right. by rewrite <- Hwa.
Qed.

Lemma fan_out_round_dispatch_witness :
  exists il ts,
    per_source 2 (PerSource ["x"; "y"]) !! 1 = Some il /\
    per_source 2 (Scalar None) !! 1 = Some ts /\
    ((address_shaped "/topics/" "projects/ab/subscriptions/b" /\
      snd <$> MultipleReadFromPubSub.read_of_source
                (MultipleReadFromPubSub.mk
                   ["projects/my-project-1/topics/a"; "projects/ab/subscriptions/b"]
                   true false ∅ 2 [Some "x"; Some "y"] [None; None])
                1 "projects/ab/subscriptions/b"
      = ReadFromPubSub.__init__ (Some "projects/ab/subscriptions/b") None il false ts) \/
     (address_shaped "/subscriptions/" "projects/ab/subscriptions/b" /\
      snd <$> MultipleReadFromPubSub.read_of_source
                (MultipleReadFromPubSub.mk
                   ["projects/my-project-1/topics/a"; "projects/ab/subscriptions/b"]
                   true false ∅ 2 [Some "x"; Some "y"] [None; None])
                1 "projects/ab/subscriptions/b"
      = ReadFromPubSub.__init__ None (Some "projects/ab/subscriptions/b") il false ts)).
Proof.
  apply (fan_out_round_dispatch
           ["projects/my-project-1/topics/a"; "projects/ab/subscriptions/b"]
           true (PerSource ["x"; "y"]) false (Scalar None)).
  - vm_compute. reflexivity.
  - reflexivity.
Defined.

Lemma shaped_parse_topic s :
  address_shaped "/topics/" s ->
  (exists r, parse_topic s = Ok r) \/
  (exists q, parse_topic s = Err (ValueError_project_name q) /\
             ~ has_project_id_prefix q).
Proof.
  intros Hs.
  destruct (parse_topic_cases s)
    as [[_ E]|(p & n & rest & _ & _ & _ & _ & _ & _ & ->)].
  - exfalso. apply address_shaped_iff in Hs.
    rewrite <- TOPIC_REGEXP_pattern in Hs. destruct Hs as [gs Hgs].
    unfold parse_topic in E. rewrite Hgs in E.
    rewrite TOPIC_REGEXP_pattern in Hgs.
    apply match_address_inv in Hgs as (p & n & rest & -> & _).
    by destruct (re.match_ PROJECT_ID_REGEXP p).
  - case_bool_decide as Hm; [left; by eexists|right].
    exists p. split; [done|]. by rewrite <- project_match_iff.
Qed.

Lemma shaped_parse_subscription s :
  address_shaped "/subscriptions/" s ->
  (exists r, parse_subscription s = Ok r) \/
  (exists q, parse_subscription s = Err (ValueError_project_name q) /\
             ~ has_project_id_prefix q).
Proof.
  intros Hs.
  destruct (parse_subscription_cases s)
    as [[_ E]|(p & n & rest & _ & _ & _ & _ & _ & _ & ->)].
  - exfalso. apply address_shaped_iff in Hs.
    rewrite <- SUBSCRIPTION_REGEXP_pattern in Hs. destruct Hs as [gs Hgs].
    unfold parse_subscription in E. rewrite Hgs in E.
    rewrite SUBSCRIPTION_REGEXP_pattern in Hgs.
    apply match_address_inv in Hgs as (p & n & rest & -> & _).
    by destruct (re.match_ PROJECT_ID_REGEXP p).
  - case_bool_decide as Hm; [left; by eexists|right].
    exists p. split; [done|]. by rewrite <- project_match_iff.
Qed.

(** The outcome of the round of a source, for a reader without keywords. *)
Lemma round_outcome self i source il ts :
  source_shaped source ->
  MultipleReadFromPubSub._kwargs self = ∅ ->
  MultipleReadFromPubSub.id_label self !! i = Some il ->
  MultipleReadFromPubSub.timestamp_attribute self !! i = Some ts ->
  (parses source /\
   exists nr, MultipleReadFromPubSub.read_of_source self i source = Ok nr) \/
  (~ parses source /\
   exists q, MultipleReadFromPubSub.read_of_source self i source
             = Err (ValueError_project_name q) /\
             ~ has_project_id_prefix q).
Proof.
  intros Hs Hkw Hil Hts.
  destruct (round_dispatch self i source il ts Hs Hkw Hil Hts) as [[Ht E]|[Hsub E]].
  - rewrite read_init_topic in E by (by eapply shaped_not_empty).
    destruct (shaped_parse_topic _ Ht) as [[r Hr]|(q & Hq & Hpre)].
    + left. split; [left; by eexists|]. rewrite Hr in E.
      destruct (MultipleReadFromPubSub.read_of_source self i source); [by eexists|done].
    + right. split.
      * intros [[r Hr]|[r Hr]]; [congruence|].
        apply parse_subscription_Ok_shaped in Hr. by apply (shaped_exclusive source).
      * exists q. split; [|done]. rewrite Hq in E.
        destruct (MultipleReadFromPubSub.read_of_source self i source); [done|].
        simpl in E. congruence.
  - rewrite read_init_subscription in E by (by eapply shaped_not_empty).
    destruct (shaped_parse_subscription _ Hsub) as [[r Hr]|(q & Hq & Hpre)].
    + left. split; [right; by eexists|]. rewrite Hr in E.
      destruct (MultipleReadFromPubSub.read_of_source self i source); [by eexists|done].
    + right. split.
      * intros [[r Hr]|[r Hr]]; [|congruence].
        apply parse_topic_Ok_shaped in Hr. by apply (shaped_exclusive source).
      * exists q. split; [|done]. rewrite Hq in E.
        destruct (MultipleReadFromPubSub.read_of_source self i source); [done|].
        simpl in E. congruence.
Qed.

Lemma apply_label_Ok applied label applied' :
  apply_label applied label = Ok applied'
  <-> (label ∉ applied) /\ applied' = label :: applied.
Proof.
  unfold apply_label. case_bool_decide; split.
  - done.
  - by intros [? _].
  - by intros [= <-].
  - by intros [_ ->].
Qed.

Lemma read_of_source_kwargs self i source nr :
  MultipleReadFromPubSub.read_of_source self i source = Ok nr ->
  MultipleReadFromPubSub._kwargs self = ∅.
Proof.
  unfold MultipleReadFromPubSub.read_of_source.
  intros (il & _ & H)%bind_Ok.
  apply bind_Ok in H as (ts & _ & H).
  apply bind_Ok in H as (sp & _ & H).
  apply bind_Ok in H as (st & _ & H).
  apply bind_Ok in H as (sn & _ & H).
  apply bind_Ok in H as (read & Hread & _).
  unfold MultipleReadFromPubSub.ReadFromPubSub_kwargs in Hread.
  destruct (map_to_list _) as [|[? ?] ?] eqn:E.
  - by apply map_to_list_empty_iff in E.
  - by destruct (String.eqb st "topics").
Qed.

(** The step name of the read of a source depends on the source only. *)
Lemma read_of_source_label self i j source rl cl rd rl' cl' rd' :
  MultipleReadFromPubSub.read_of_source self i source = Ok (rl, cl, rd) ->
  MultipleReadFromPubSub.read_of_source self j source = Ok (rl', cl', rd') ->
  rl = rl'.
Proof.
  unfold MultipleReadFromPubSub.read_of_source.
  intros (il & _ & H)%bind_Ok (il' & _ & H')%bind_Ok.
  apply bind_Ok in H as (ts & _ & H). apply bind_Ok in H' as (ts' & _ & H').
  apply bind_Ok in H as (sp & Hsp & H). apply bind_Ok in H' as (sp' & Hsp' & H').
  apply bind_Ok in H as (st & Hst & H). apply bind_Ok in H' as (st' & Hst' & H').
  apply bind_Ok in H as (sn & Hsn & H). apply bind_Ok in H' as (sn' & Hsn' & H').
  apply bind_Ok in H as (read & _ & [= <- _ _]).
  apply bind_Ok in H' as (read' & _ & [= <- _ _]).
  congruence.
Qed.

(** The round of a source that a parser accepts builds its read. *)
Lemma round_reads self i source :
  source_shaped source ->
  MultipleReadFromPubSub._kwargs self = ∅ ->
  parses source ->
  is_Some (MultipleReadFromPubSub.id_label self !! i) ->
  is_Some (MultipleReadFromPubSub.timestamp_attribute self !! i) ->
  exists name rd,
    MultipleReadFromPubSub.read_of_source self i source = Ok (name, rd).
Proof.
  intros Hs Hkw Hp [il Hil] [ts Hts].
  destruct (round_outcome self i source il ts Hs Hkw Hil Hts)
    as [[_ [[name rd] H]]|[Hn _]]; [by exists name, rd|done].
Qed.

(** A round that built its read was given a source that a parser accepts. *)
Lemma read_of_source_parses self i source nr :
  source_shaped source ->
  MultipleReadFromPubSub.read_of_source self i source = Ok nr ->
  parses source.
Proof.
  intros Hs H. destruct nr as [name rd].
  assert (source <> "") as Hne.
  { destruct Hs as [Hs|Hs]; by eapply shaped_not_empty. }
  apply read_of_source_inv in H as (il & ts & _ & _ & [H|H]).
  - rewrite read_init_topic in H by done. left.
    destruct (parse_topic source) as [r|e]; [by exists r|done].
  - rewrite read_init_subscription in H by done. right.
    destruct (parse_subscription source) as [r|e]; [by exists r|done].
Qed.

(** C7, amended. A scalar (or None) [id_label], respectively
    [timestamp_attribute], becomes the list of [N] copies of it: the round
    of every source reads that value from the list, the [ReadFromPubSub]
    that a round builds has it, and without keywords the round of a source
    that a parser accepts does build one. An [id_label] list of another length than [N] is
    refused with the error that reports its length and [N], whatever
    [timestamp_attribute] is. A [timestamp_attribute] list of another length
    than [N] is refused with an error of the same kind, which reports the
    length of that list and [N] when [id_label] is a scalar or a list of
    length [N]; when the [id_label] list has a wrong length too, the error
    is the one of [id_label], which is checked first. *)
Theorem fan_out_parameters
    (source_list : list string) (with_context : bool) (id_label : str_or_list)
    (with_attributes : bool) (timestamp_attribute : str_or_list)
    (kwargs : gmap string string) :
  let N := length source_list in
  let init := MultipleReadFromPubSub.__init__ source_list with_context id_label
                with_attributes timestamp_attribute kwargs in
  (forall v self,
      id_label = Scalar v -> init = Ok self ->
      MultipleReadFromPubSub.id_label self = replicate N v /\
      (forall i source,
          source_list !! i = Some source ->
          index (MultipleReadFromPubSub.id_label self) i = Ok v /\
          (kwargs = ∅ -> parses source ->
           exists name rd,
             MultipleReadFromPubSub.read_of_source self i source = Ok (name, rd) /\
             _PubSubSource.id_label (ReadFromPubSub._source rd) = v)) /\
      (forall i source name rd,
          MultipleReadFromPubSub.read_of_source self i source = Ok (name, rd) ->
          _PubSubSource.id_label (ReadFromPubSub._source rd) = v)) /\
  (forall v self,
      timestamp_attribute = Scalar v -> init = Ok self ->
      MultipleReadFromPubSub.timestamp_attribute self = replicate N v /\
      (forall i source,
          source_list !! i = Some source ->
          index (MultipleReadFromPubSub.timestamp_attribute self) i = Ok v /\
          (kwargs = ∅ -> parses source ->
           exists name rd,
             MultipleReadFromPubSub.read_of_source self i source = Ok (name, rd) /\
             _PubSubSource.timestamp_attribute (ReadFromPubSub._source rd) = v)) /\
      (forall i source name rd,
          MultipleReadFromPubSub.read_of_source self i source = Ok (name, rd) ->
          _PubSubSource.timestamp_attribute (ReadFromPubSub._source rd) = v)) /\
  (forall l,
      id_label = PerSource l -> length l <> N ->
      init = Err (ValueError_id_label_length (length l) N) /\
      kind (ValueError_id_label_length (length l) N) = ParameterCountMismatch) /\
  (forall l,
      timestamp_attribute = PerSource l -> length l <> N ->
      (exists e, init = Err e /\ kind e = ParameterCountMismatch) /\
      (fits N id_label ->
       init = Err (ValueError_timestamp_attribute_length (length l) N)) /\
      (forall l',
          id_label = PerSource l' -> length l' <> N ->
          init = Err (ValueError_id_label_length (length l') N))).
Proof.
  intros N init.
  assert (forall self, init = Ok self ->
            forall i source, source_list !! i = Some source ->
              kwargs = ∅ -> parses source ->
              exists name rd,
                MultipleReadFromPubSub.read_of_source self i source = Ok (name, rd))
    as Hbuilt.
  { intros self H i source Hi Hkw Hp.
    apply fan_out_init_inv in H as (Hid & Hts & Hs & _ & _ & Hself).
    pose proof (lookup_lt_Some _ _ _ Hi) as Hlt.
    apply round_reads; [| |done| |].
    - rewrite Forall_forall in Hs. apply Hs. by eapply list_elem_of_lookup_2.
    - by rewrite Hself.
    - rewrite Hself. by apply per_source_lookup.
    - rewrite Hself. by apply per_source_lookup. }
  split; [|split; [|split]].
  - intros v self -> H.
    pose proof (Hbuilt self H) as Hb.
    apply fan_out_init_inv in H as (_ & _ & _ & _ & _ & Hself).
    assert (MultipleReadFromPubSub.id_label self = replicate N v) as Hil
      by (by rewrite Hself).
    assert (forall i source name rd,
              MultipleReadFromPubSub.read_of_source self i source = Ok (name, rd) ->
              _PubSubSource.id_label (ReadFromPubSub._source rd) = v) as Huse.
    { intros i source name rd (il & ts' & Hi & _ & Hrd)%read_of_source_inv.
      rewrite Hil in Hi. apply lookup_replicate in Hi as [-> _].
      destruct Hrd as [Hrd|Hrd]; apply read_init_fields in Hrd; tauto. }
    split; [done|]. split; [|done].
    intros i source Hi. split.
    + apply index_Ok. rewrite Hil. apply lookup_replicate_2.
      by eapply lookup_lt_Some.
    + intros Hkw Hp. destruct (Hb i source Hi Hkw Hp) as (name & rd & Hrd).
      exists name, rd. split; [done|]. by eapply Huse.
  - intros v self -> H.
    pose proof (Hbuilt self H) as Hb.
    apply fan_out_init_inv in H as (_ & _ & _ & _ & _ & Hself).
    assert (MultipleReadFromPubSub.timestamp_attribute self = replicate N v) as Hts
      by (by rewrite Hself).
    assert (forall i source name rd,
              MultipleReadFromPubSub.read_of_source self i source = Ok (name, rd) ->
              _PubSubSource.timestamp_attribute (ReadFromPubSub._source rd) = v)
      as Huse.
    { intros i source name rd (il & ts' & _ & Hi & Hrd)%read_of_source_inv.
      rewrite Hts in Hi. apply lookup_replicate in Hi as [-> _].
      destruct Hrd as [Hrd|Hrd]; apply read_init_fields in Hrd; tauto. }
    split; [done|]. split; [|done].
    intros i source Hi. split.
    + apply index_Ok. rewrite Hts. apply lookup_replicate_2.
      by eapply lookup_lt_Some.
    + intros Hkw Hp. destruct (Hb i source Hi Hkw Hp) as (name & rd & Hrd).
      exists name, rd. split; [done|]. by eapply Huse.
  - intros l -> Hl. split; [|done].
    subst init. unfold MultipleReadFromPubSub.__init__. fold N.
    by destruct (Nat.eqb_spec (length l) N).
  - intros l -> Hl. clear Hbuilt.
    subst init. unfold MultipleReadFromPubSub.__init__. fold N.
    destruct id_label as [v|l0]; simpl.
    + destruct (Nat.eqb_spec (length l) N); [done|]. simpl.
      split; [by eexists|]. split; [done|]. intros l' [=].
    + destruct (Nat.eqb_spec (length l0) N) as [E|E]; simpl.
      * destruct (Nat.eqb_spec (length l) N); [done|]. simpl.
        split; [by eexists|]. split; [done|]. intros l' [= <-]. done.
      * split; [by eexists|]. split; [done|]. by intros l' [= <-].
Qed.

Lemma fan_out_parameters_witness :
  (exists self name rd,
      MultipleReadFromPubSub.__init__
        ["projects/my-project-1/topics/a"; "projects/my-project-1/topics/b"]
        false (Scalar (Some "id")) false (Scalar None) ∅ = Ok self /\
      MultipleReadFromPubSub.read_of_source self 1 "projects/my-project-1/topics/b"
      = Ok (name, rd) /\
      _PubSubSource.id_label (ReadFromPubSub._source rd) = Some "id") /\
  MultipleReadFromPubSub.__init__
    ["projects/my-project-1/topics/a"; "projects/my-project-1/topics/b"]
    false (PerSource ["id1"]) false (Scalar None) ∅
  = Err (ValueError_id_label_length 1 2) /\
  MultipleReadFromPubSub.__init__
    ["projects/my-project-1/topics/a"; "projects/my-project-1/topics/b"]
    false (Scalar (Some "id")) false (PerSource ["t1"; "t2"; "t3"]) ∅
  = Err (ValueError_timestamp_attribute_length 3 2).
Proof.
  split; [|split].
  - assert (MultipleReadFromPubSub.__init__
              ["projects/my-project-1/topics/a"; "projects/my-project-1/topics/b"]
              false (Scalar (Some "id")) false (Scalar None) ∅
            = Ok (MultipleReadFromPubSub.mk
                    ["projects/my-project-1/topics/a";
                     "projects/my-project-1/topics/b"]
                    false false ∅ 2 [Some "id"; Some "id"] [None; None])) as Hinit
      by (vm_compute; reflexivity).
    destruct (proj1 (fan_out_parameters
             ["projects/my-project-1/topics/a"; "projects/my-project-1/topics/b"]
             false (Scalar (Some "id")) false (Scalar None) ∅)
             (Some "id") _ eq_refl Hinit) as (_ & Hround & _).
    destruct (Hround 1 "projects/my-project-1/topics/b" eq_refl)
      as [_ Hbuilt].
    destruct Hbuilt as (name & rd & Hrd & Hid).
    + reflexivity.
    + left. eexists. vm_compute. reflexivity.
    + eexists _, name, rd. split; [exact Hinit|]. by split.
  - apply (proj1 (proj2 (proj2 (fan_out_parameters
             ["projects/my-project-1/topics/a"; "projects/my-project-1/topics/b"]
             false (PerSource ["id1"]) false (Scalar None) ∅))) ["id1"] eq_refl).
    simpl. lia.
  - apply (proj2 (proj2 (proj2 (fan_out_parameters
             ["projects/my-project-1/topics/a"; "projects/my-project-1/topics/b"]
             false (Scalar (Some "id")) false (PerSource ["t1"; "t2"; "t3"]) ∅)))
             ["t1"; "t2"; "t3"] eq_refl).
    + simpl. lia.
    + exact I.
Defined.

(** C7, as stated, fails when both lists have a wrong length: with two
    sources, an [id_label] list of one entry and a [timestamp_attribute]
    list of three, the error reports the length of [id_label]; the length of
    the [timestamp_attribute] list is not reported. *)
Lemma fan_out_parameters_both_lists_wrong :
  MultipleReadFromPubSub.__init__
    ["projects/my-project-1/topics/a"; "projects/my-project-1/topics/b"]
    false (PerSource ["id1"]) false (PerSource ["t1"; "t2"; "t3"]) ∅
  = Err (ValueError_id_label_length 1 2) /\
  MultipleReadFromPubSub.__init__
    ["projects/my-project-1/topics/a"; "projects/my-project-1/topics/b"]
    false (PerSource ["id1"]) false (PerSource ["t1"; "t2"; "t3"]) ∅
  <> Err (ValueError_timestamp_attribute_length 3 2).
Proof. split; [reflexivity|discriminate]. Qed.

Section fan_out_expand.
Variable Read : _PubSubSource.t -> list bytes.

Lemma expand_source_inv self applied i source applied' p :
  MultipleReadFromPubSub.expand_source Read self applied i source
  = Ok (applied', p) ->
  exists rl cl rd,
    MultipleReadFromPubSub.read_of_source self i source = Ok (rl, cl, rd) /\
    (rl ∉ applied) /\
    rl ∈ applied' /\
    (forall l, l ∈ applied -> l ∈ applied') /\
    forall key, p (Some key) = round_output Read self key rd.
Proof.
  unfold MultipleReadFromPubSub.expand_source.
  intros ([[rl cl] rd] & Hrd & H)%bind_Ok.
  apply bind_Ok in H as (applied1 & [Hrl ->]%apply_label_Ok & H).
  exists rl, cl, rd. split; [done|]. split; [done|].
  unfold round_output. destruct (MultipleReadFromPubSub.with_context self).
  - apply bind_Ok in H as (applied2 & [Hcl ->]%apply_label_Ok & [= <- <-]).
    split; [right; left|]. split; [intros l Hl; by do 2 right|].
    intros key. unfold Map. apply map_ext. by intros [?|?].
  - injection H as <- <-. split; [left|]. split; [intros l Hl; by right|done].
Qed.

Lemma expand_loop_inv self sources :
  forall frame applied i acc frame' applied' out,
  MultipleReadFromPubSub.expand_loop Read self frame applied i sources acc
  = Ok (frame', applied', out) ->
  exists reads,
    length reads = length sources /\
    (forall k source,
        sources !! k = Some source ->
        exists name rd,
          reads !! k = Some rd /\
          MultipleReadFromPubSub.read_of_source self (i + k) source
          = Ok (name, rd)) /\
    frame' = from_option Some frame (last sources) /\
    length out = length acc + length reads /\
    forall key,
      (fun p : MultipleReadFromPubSub.deferred => p (Some key)) <$> out
      = ((fun p : MultipleReadFromPubSub.deferred => p (Some key)) <$> acc)
        ++ (round_output Read self key <$> reads).
Proof.
  induction sources as [|source rest IH];
    intros frame applied i acc frame' applied' out; simpl.
  - intros [= <- <- <-]. exists [].
    split; [done|]. split; [done|]. split; [done|]. split; [simpl; lia|].
    intros key. simpl. by rewrite app_nil_r.
  - intros ([applied1 p] & Hp & Hloop)%bind_Ok.
    apply expand_source_inv in Hp as (rl & cl & rd & Hrd & _ & _ & _ & Hp).
    apply IH in Hloop as (reads & Hlen & Hreads & -> & Hlo & Hout).
    exists (rd :: reads). split; [simpl; by rewrite Hlen|]. split; [|split; [|split]].
    + intros [|k] src; simpl.
      * intros [= <-]. exists (rl, cl), rd. by rewrite Nat.add_0_r.
      * intros Hk. destruct (Hreads k src Hk) as (name' & rd' & ? & ?).
        exists name', rd'. split; [done|].
        by replace (i + S k) with (S i + k) by lia.
    + rewrite last_cons. by destruct (last rest).
    + rewrite length_app in Hlo. simpl in *. lia.
    + intros key. rewrite Hout, fmap_app. simpl.
      by rewrite Hp, <- app_assoc.
Qed.

(** The step names: a source list that the loop gets through has no source
    twice, since the second read of a source would be applied under the
    step name of the first. *)
Lemma expand_loop_labels self sources : forall frame applied i acc r,
  MultipleReadFromPubSub.expand_loop Read self frame applied i sources acc = Ok r ->
  NoDup sources /\
  forall source j rl cl rd,
    source ∈ sources ->
    MultipleReadFromPubSub.read_of_source self j source = Ok (rl, cl, rd) ->
    rl ∉ applied.
Proof.
  induction sources as [|source rest IH]; intros frame applied i acc r; simpl.
  - intros _. split; [constructor|]. intros ????? H. by apply elem_of_nil in H.
  - intros ([applied1 p] & Hp & Hloop)%bind_Ok.
    apply expand_source_inv in Hp as (rl & cl & rd & Hrd & Hrl & Hin & Hsub & _).
    apply IH in Hloop as [Hnd Hrest].
    split.
    + constructor; [|done]. intros Hin'.
      by apply (Hrest source i rl cl rd Hin' Hrd).
    + intros s j rl' cl' rd' [->|Hs]%elem_of_cons Hrd'.
      * by rewrite <- (read_of_source_label _ _ _ _ _ _ _ _ _ _ Hrd Hrd').
      * intros Hbad. apply (Hrest s j rl' cl' rd' Hs Hrd'). by apply Hsub.
Qed.

(** What a successful expansion gives: the merged PCollection is the union
    of the rounds, all of them run with [source] as the last round left it. *)
Lemma expand_inv self out :
  MultipleReadFromPubSub.expand Read self = Ok out ->
  exists key reads,
    last (MultipleReadFromPubSub.source_list self) = Some key /\
    length reads = length (MultipleReadFromPubSub.source_list self) /\
    (forall k source,
        MultipleReadFromPubSub.source_list self !! k = Some source ->
        exists name rd,
          reads !! k = Some rd /\
          MultipleReadFromPubSub.read_of_source self k source = Ok (name, rd)) /\
    NoDup (MultipleReadFromPubSub.source_list self) /\
    out = mjoin (round_output Read self key <$> reads).
Proof.
  unfold MultipleReadFromPubSub.expand.
  intros ([[frame applied] pcols] & Hloop & H)%bind_Ok.
  pose proof (expand_loop_labels _ _ _ _ _ _ _ Hloop) as [Hnd _].
  apply expand_loop_inv in Hloop as (reads & Hlen & Hreads & -> & Hlo & Hout).
  destruct (last (MultipleReadFromPubSub.source_list self)) as [key|] eqn:Hlast;
    simpl in H.
  - exists key, reads. split; [done|]. split; [done|]. split; [done|].
    split; [done|].
    rewrite (Hout key) in H. simpl in H. unfold Flatten in H.
    destruct (round_output Read self key <$> reads); [discriminate|].
    by injection H as <-.
  - apply last_None in Hlast. rewrite Hlast in Hlen. simpl in *.
    destruct reads; [|done]. destruct pcols; [|simpl in Hlo; lia].
    discriminate H.
Qed.


(** C2, at an input where the expansion departs from it. With
    [with_context] set, every element comes out paired with the last source
    of the list, not with the source it was read from: the lambda that
    builds the pair reads the loop variable [source] when an element
    arrives, after the loop has ended. With the topic [a] and the
    subscription [b] as sources, one element each, the element of [a] comes
    out as the pair of [b] and the element, where the class documents
    key-value pairs with the source as the key. *)
Theorem fan_out_with_context_pairs_last_source :
  let a := "projects/my-project-1/topics/a" in
  let b := "projects/my-project-1/subscriptions/b" in
  exists self name_a read_a name_b read_b,
    MultipleReadFromPubSub.__init__ [a; b] true (Scalar None) false (Scalar None) ∅
    = Ok self /\
    MultipleReadFromPubSub.read_of_source self 0 a = Ok (name_a, read_a) /\
    ReadFromPubSub.expand sample_Read read_a = [Ok (PyBytes [x61])] /\
    MultipleReadFromPubSub.read_of_source self 1 b = Ok (name_b, read_b) /\
    ReadFromPubSub.expand sample_Read read_b = [Ok (PyBytes [x62])] /\
    MultipleReadFromPubSub.expand sample_Read self
    = Ok [Ok (PyTuple (PyStr b) (PyBytes [x61]));
          Ok (PyTuple (PyStr b) (PyBytes [x62]))] /\
    MultipleReadFromPubSub.expand sample_Read self
    <> Ok [Ok (PyTuple (PyStr a) (PyBytes [x61]));
           Ok (PyTuple (PyStr b) (PyBytes [x62]))].
Proof.
  intros a b. eexists _, _, _, _, _.
  split; [vm_compute; reflexivity|].
  split; [vm_compute; reflexivity|].
  split; [vm_compute; reflexivity|].
  split; [vm_compute; reflexivity|].
  split; [vm_compute; reflexivity|].
  split; [vm_compute; reflexivity|].
  vm_compute. discriminate.
Qed.

(** X10. What a successful expansion of a multi-source reader shows about
    its arguments: there is a source, no source is listed twice (the read
    of a source is applied under a step name made from the source, and a
    step name is used once), one of the two parsers returns a pair for
    every source, and there is no keyword. The construction has only
    checked how the sources start: without keywords, a first source whose
    project segment the check of the parsers refuses makes the expansion
    raise the error about the project. *)
Theorem fan_out_expand_success
    (source_list : list string) (with_context : bool) (id_label : str_or_list)
    (with_attributes : bool) (timestamp_attribute : str_or_list)
    (kwargs : gmap string string) (self : MultipleReadFromPubSub.t) :
  MultipleReadFromPubSub.__init__ source_list with_context id_label
    with_attributes timestamp_attribute kwargs = Ok self ->
  (forall out,
      MultipleReadFromPubSub.expand Read self = Ok out ->
      source_list <> [] /\ NoDup source_list /\ Forall parses source_list /\
      kwargs = ∅) /\
  (forall source rest,
      source_list = source :: rest -> kwargs = ∅ -> ~ parses source ->
      exists q,
        MultipleReadFromPubSub.expand Read self = Err (ValueError_project_name q) /\
        ~ has_project_id_prefix q).
Proof.
  intros (Hid & Hts & Hs & _ & _ & Hself)%fan_out_init_inv.
  assert (MultipleReadFromPubSub.source_list self = source_list) as Hsl
    by (by rewrite Hself).
  assert (MultipleReadFromPubSub._kwargs self = kwargs) as Hkw
    by (by rewrite Hself).
  split.
  - intros out (key & reads & Hlast & Hlen & Hreads & Hnd & _)%expand_inv.
    rewrite Hsl in *.
    assert (source_list <> []) as Hne.
    { intros ->. discriminate Hlast. }
    split; [done|]. split; [done|]. split.
    + apply Forall_lookup. intros k source Hk.
      destruct (Hreads k source Hk) as (name & rd & _ & Hrd).
      apply (read_of_source_parses self k source (name, rd)); [|done].
      rewrite Forall_forall in Hs. apply Hs. by eapply list_elem_of_lookup_2.
    + destruct source_list as [|source rest]; [done|].
      destruct (Hreads 0 source eq_refl) as (name & rd & _ & Hrd).
      rewrite <- Hkw. by eapply read_of_source_kwargs.
  - intros source rest -> -> Hn.
    apply Forall_cons in Hs as [Hs _].
    destruct (per_source_lookup _ _ 0 Hid ltac:(simpl; lia)) as [il Hil].
    destruct (per_source_lookup _ _ 0 Hts ltac:(simpl; lia)) as [ts Hts'].
    destruct (round_outcome self 0 source il ts Hs) as [[Hp _]|[_ (q & Hq & Hpre)]];
      [by rewrite Hself..|done|].
    exists q. split; [|done].
    unfold MultipleReadFromPubSub.expand. rewrite Hsl.
    cbn [MultipleReadFromPubSub.expand_loop].
    unfold MultipleReadFromPubSub.expand_source. by rewrite Hq.
Qed.


(** X12. A keyword that the construction lets through makes the expansion
    fail as soon as there is a source: the keywords are passed on to
    [ReadFromPubSub], which takes none of them. *)
Theorem fan_out_expand_keyword
    (source_list : list string) (with_context : bool) (id_label : str_or_list)
    (with_attributes : bool) (timestamp_attribute : str_or_list)
    (kwargs : gmap string string) (self : MultipleReadFromPubSub.t) :
  MultipleReadFromPubSub.__init__ source_list with_context id_label
    with_attributes timestamp_attribute kwargs = Ok self ->
  kwargs <> ∅ -> source_list <> [] ->
  exists key,
    is_Some (kwargs !! key) /\ key <> "topic" /\ key <> "subscription" /\
    MultipleReadFromPubSub.expand Read self = Err (TypeError_unexpected_keyword key).
Proof.
  intros (Hid & Hts & Hs & Htopic & Hsub & Hself)%fan_out_init_inv Hkw Hne.
  destruct source_list as [|source rest]; [done|]. clear Hne.
  destruct (map_to_list kwargs) as [|[key v] l] eqn:Hl.
  { by apply map_to_list_empty_iff in Hl. }
  assert (kwargs !! key = Some v) as Hkey.
  { apply elem_of_map_to_list. rewrite Hl. left. }
  exists key. split; [by eexists|]. split; [congruence|]. split; [congruence|].
  destruct (per_source_lookup _ _ 0 Hid ltac:(simpl; lia)) as [il Hil].
  destruct (per_source_lookup _ _ 0 Hts ltac:(simpl; lia)) as [ts Hts'].
  apply Forall_cons in Hs as [Hs _].
  assert (exists p m tl, split "/" source = "projects" :: p :: m :: tl)
    as (p & m & tl & Hsplit).
  { destruct Hs as [H|H].
    - destruct (topic_shaped_split _ H) as (p & tl & ? & _). by eexists _, _, _.
    - destruct (subscription_shaped_split _ H) as (p & tl & ? & _).
      by eexists _, _, _. }
  rewrite Hself. unfold MultipleReadFromPubSub.expand.
  cbn [MultipleReadFromPubSub.source_list MultipleReadFromPubSub.expand_loop].
  unfold MultipleReadFromPubSub.expand_source, MultipleReadFromPubSub.read_of_source.
  cbn [MultipleReadFromPubSub.id_label MultipleReadFromPubSub.timestamp_attribute
       MultipleReadFromPubSub._kwargs].
  rewrite (index_lookup _ _ _ Hil), (index_lookup _ _ _ Hts'), Hsplit.
  destruct (index_last_cons "projects" (p :: m :: tl)) as [y ->].
  cbn [mbind result_bind index lookup list_lookup].
  unfold MultipleReadFromPubSub.ReadFromPubSub_kwargs. rewrite Hl.
  by destruct (String.eqb m "topics").
Qed.


End fan_out_expand.

Lemma fan_out_expand_success_witness :
  ["projects/my-project-1/topics/a"; "projects/my-project-1/subscriptions/b"] <> [] /\
  NoDup ["projects/my-project-1/topics/a"; "projects/my-project-1/subscriptions/b"] /\
  Forall parses
    ["projects/my-project-1/topics/a"; "projects/my-project-1/subscriptions/b"] /\
  (∅ : gmap string string) = ∅.
Proof.
  destruct (fan_out_expand_success sample_Read
              ["projects/my-project-1/topics/a";
               "projects/my-project-1/subscriptions/b"]
              true (Scalar None) false (Scalar None) ∅
              (MultipleReadFromPubSub.mk
                 ["projects/my-project-1/topics/a";
                  "projects/my-project-1/subscriptions/b"]
                 true false ∅ 2 [None; None] [None; None])) as [Hsuccess _].
  - vm_compute. reflexivity.
  - apply (Hsuccess
             [Ok (PyTuple (PyStr "projects/my-project-1/subscriptions/b")
                    (PyBytes [x61]));
              Ok (PyTuple (PyStr "projects/my-project-1/subscriptions/b")
                    (PyBytes [x62]))]).
    vm_compute. reflexivity.
Defined.


Lemma fan_out_expand_keyword_witness :
  exists key,
    is_Some (({["label" := "x"]} : gmap string string) !! key) /\
    key <> "topic" /\ key <> "subscription" /\
    MultipleReadFromPubSub.expand sample_Read
      (MultipleReadFromPubSub.mk ["projects/my-project-1/topics/a"]
         false false {["label" := "x"]} 1 [None] [None])
    = Err (TypeError_unexpected_keyword key).
Proof.
  apply (fan_out_expand_keyword sample_Read ["projects/my-project-1/topics/a"]
           false (Scalar None) false (Scalar None) {["label" := "x"]}).
  - vm_compute. reflexivity.
  - intros H. apply (f_equal (fun m : gmap string string => m !! "label")) in H.
    by rewrite lookup_singleton_eq, lookup_empty in H.
  - discriminate.
Defined.


(** ** More on encoding and decoding *)

Lemma to_proto_str_Ok m bs :
  PubsubMessage._to_proto_str m = Ok bs ->
  exists d a,
    m = mkPubsubMessage (Some d) (Some a) /\
    bs = pubsub_pb2.SerializeToString (pubsub_pb2.mk d a).
Proof.
  destruct m as [[d|] [a|]]; try discriminate.
  rewrite to_proto_str_data. intros [= <-]. by exists d, a.
Qed.

Lemma from_proto_str_serialized d a :
  PubsubMessage._from_proto_str (pubsub_pb2.SerializeToString (pubsub_pb2.mk d a))
  = Ok (mkPubsubMessage (Some d) (Some a)).
Proof.
  unfold PubsubMessage._from_proto_str. rewrite parse_serialized.
  cbn [pubsub_pb2.data pubsub_pb2.attributes].
  by rewrite list_to_map_to_list, message_init_data.
Qed.

Lemma to_from_proto_str m bs :
  PubsubMessage._to_proto_str m = Ok bs -> PubsubMessage._from_proto_str bs = Ok m.
Proof.
  intros (d & a & -> & ->)%to_proto_str_Ok. apply from_proto_str_serialized.
Qed.

(** X13. What decoding returns. The ValueError of the constructor is never
    raised by decoding: a decoded message has a [data] and an [attributes]
    that are not None, so it passes the check of the constructor. It can be
    encoded again, and the bytes that gives decode to the same message.
    Empty bytes decode to the message with empty data and no attributes.
    [_from_message] never raises. *)
Theorem from_proto_str_decoded (bs : bytes) :
  (forall d a, PubsubMessage._from_proto_str bs <> Err (ValueError_payload d a)) /\
  (forall m,
      PubsubMessage._from_proto_str bs = Ok m ->
      (exists d a, m = mkPubsubMessage (Some d) (Some a)) /\
      PubsubMessage.__init__ (data m) (attributes m) = Ok m /\
      exists bs',
        PubsubMessage._to_proto_str m = Ok bs' /\
        PubsubMessage._from_proto_str bs' = Ok m) /\
  PubsubMessage._from_proto_str [] = Ok (mkPubsubMessage (Some []) (Some ∅)) /\
  (forall msg,
      PubsubMessage._from_message msg
      = Ok (mkPubsubMessage (Some (pubsub_pb2.data msg))
              (Some (pubsub_pb2.attributes msg)))).
Proof.
  split; [|split; [|split]].
  - intros d a. unfold PubsubMessage._from_proto_str.
    destruct (pubsub_pb2.ParseFromString bs) as [msg|]; [|discriminate].
    rewrite message_init_data. discriminate.
  - unfold PubsubMessage._from_proto_str.
    destruct (pubsub_pb2.ParseFromString bs) as [[d a]|]; [|discriminate].
    rewrite message_init_data, list_to_map_to_list. intros m [= <-].
    split; [by exists d, a|]. split; [apply message_init_data|].
    exists (pubsub_pb2.SerializeToString (pubsub_pb2.mk d a)).
    split; [apply to_proto_str_data|apply from_proto_str_serialized].
  - done.
  - intros msg. unfold PubsubMessage._from_message.
    by rewrite message_init_data, list_to_map_to_list.
Qed.

Lemma from_proto_str_decoded_witness :
  exists bs',
    PubsubMessage._to_proto_str (mkPubsubMessage (Some [x61]) (Some ∅)) = Ok bs' /\
    PubsubMessage._from_proto_str bs' = Ok (mkPubsubMessage (Some [x61]) (Some ∅)).
Proof.
  apply (proj1 (proj2 (from_proto_str_decoded [x0a; x01; x61]))
           (mkPubsubMessage (Some [x61]) (Some ∅))).
  vm_compute. reflexivity.
Defined.

(** X14. [_to_proto_str] returns bytes exactly for a message whose [data]
    and [attributes] are both not None. On a message without [data] it
    raises the TypeError of the protobuf field, whatever the attributes are;
    on a message with [data] and without [attributes], the AttributeError of
    the iteration. Both kinds of message pass the constructor when the other
    field is set. *)
Theorem to_proto_str_defined_iff (m : PubsubMessage_obj) :
  ((exists bs, PubsubMessage._to_proto_str m = Ok bs)
   <-> data m <> None /\ attributes m <> None) /\
  (data m = None -> PubsubMessage._to_proto_str m = Err TypeError_bytes_field) /\
  (data m <> None -> attributes m = None ->
   PubsubMessage._to_proto_str m = Err AttributeError_items /\
   PubsubMessage.__init__ (data m) (attributes m) = Ok m).
Proof.
  destruct m as [[d|] [a|]]; cbn [data attributes].
  - rewrite to_proto_str_data. split; [split|split].
    + done.
    + intros _. by eexists.
    + done.
    + done.
  - split; [split|split].
    + by intros [? ?].
    + by intros [_ ?].
    + done.
    + intros _ _. split; [done|]. apply message_init_data.
  - split; [split|split].
    + by intros [? ?].
    + by intros [? _].
    + done.
    + done.
  - split; [split|split].
    + by intros [? ?].
    + by intros [? _].
    + done.
    + done.
Qed.

Lemma to_proto_str_defined_iff_witness :
  PubsubMessage._to_proto_str (mkPubsubMessage (Some [x64]) None)
  = Err AttributeError_items /\
  PubsubMessage.__init__ (Some [x64]) None = Ok (mkPubsubMessage (Some [x64]) None).
Proof.
  apply (proj2 (proj2 (to_proto_str_defined_iff (mkPubsubMessage (Some [x64]) None))));
    [discriminate|reflexivity].
Defined.

(** X15. [_to_proto_str] is injective: two messages with the same encoding
    are the same message. *)
Theorem to_proto_str_injective (m1 m2 : PubsubMessage_obj) (bs : bytes) :
  PubsubMessage._to_proto_str m1 = Ok bs ->
  PubsubMessage._to_proto_str m2 = Ok bs ->
  m1 = m2.
Proof.
  intros H1%to_from_proto_str H2%to_from_proto_str. congruence.
Qed.

Lemma to_proto_str_injective_witness :
  mkPubsubMessage (Some [x64]) (Some (<["k" := "v"]> ∅))
  = mkPubsubMessage (Some [x64]) (Some {["k" := "v"]}).
Proof.
  apply (to_proto_str_injective _ _
           [x0a; x01; x64; x12; x06; x0a; x01; x6b; x12; x01; x76]);
    vm_compute; reflexivity.
Defined.

(** X16. Writing with attributes and reading back with attributes. If
    [WriteToPubSub.expand] turned every message of a list into bytes, and
    the source delivers these bytes, then [ReadFromPubSub.expand] gives the
    messages of the list, in the same order. *)
Theorem write_then_read (Read : _PubSubSource.t -> list bytes)
    (w : WriteToPubSub.t) (rd : ReadFromPubSub.t)
    (msgs : list PubsubMessage_obj) (bs : list bytes) :
  WriteToPubSub.with_attributes w = true ->
  ReadFromPubSub.with_attributes rd = true ->
  WriteToPubSub.expand w ((fun m => Ok (PyMessage m)) <$> msgs)
  = (fun b => Ok (PyBytes b)) <$> bs ->
  Read (ReadFromPubSub._source rd) = bs ->
  ReadFromPubSub.expand Read rd = (fun m => Ok (PyMessage m)) <$> msgs.
Proof.
  intros Hw Hr Hwrite Hread. unfold ReadFromPubSub.expand. rewrite Hr, Hread.
  unfold WriteToPubSub.expand in Hwrite. rewrite Hw in Hwrite.
  unfold Map in *. clear Hread. revert bs Hwrite.
  induction msgs as [|m msgs IH]; intros [|b bs] Hwrite; try done.
  rewrite !fmap_cons in Hwrite. cbn [map] in Hwrite.
  injection Hwrite as Hm Hrest.
  cbn [map fmap list_fmap]. f_equal.
  - cbn [mbind result_bind WriteToPubSub.to_proto_str] in Hm.
    destruct (PubsubMessage._to_proto_str m) as [b'|e] eqn:E; [|done].
    injection Hm as ->. cbn [mbind result_bind].
    by rewrite (to_from_proto_str _ _ E).
  - by apply IH.
Qed.

Lemma write_then_read_witness :
  ReadFromPubSub.expand
    (fun _ => [[x0a; x01; x64]])
    (ReadFromPubSub.mk true
       (_PubSubSource.mk None (Some "projects/my-project-1/subscriptions/s")
          None (Some "s") None true None (Some "my-project-1")))
  = (fun m => Ok (PyMessage m)) <$> [mkPubsubMessage (Some [x64]) (Some ∅)].
Proof.
  apply (write_then_read _
           (WriteToPubSub.mk true None None
              (_PubSubSink.mk "projects/my-project-1/topics/t" None true None
                 "my-project-1" "t"))
           _ _ [[x0a; x01; x64]]); reflexivity.
Defined.

(** ** More on the portable payloads *)

(** X17. For a [WriteToPubSub] that was built, building a transform from
    its exported payload succeeds, whatever coder id the export put in. The
    result has the same topic, the same parsed project and topic name and
    the same [with_attributes] flag; its id label and timestamp attribute
    are those of the original with None turned into the empty string; and it
    exports the same payload. *)
Theorem write_payload_round_trip
    (topic : string) (with_attributes : bool)
    (id_label timestamp_attribute : option string) (sink_coder_id : string)
    (original : WriteToPubSub.t) :
  WriteToPubSub.__init__ topic with_attributes id_label timestamp_attribute
  = Ok original ->
  exists rebuilt,
    WriteToPubSub.from_runner_api_parameter
      (WriteToPubSub.to_runner_api_parameter original sink_coder_id) = Ok rebuilt /\
    WriteToPubSub.with_attributes rebuilt = WriteToPubSub.with_attributes original /\
    _PubSubSink.full_topic (WriteToPubSub._sink rebuilt)
    = _PubSubSink.full_topic (WriteToPubSub._sink original) /\
    _PubSubSink.project (WriteToPubSub._sink rebuilt)
    = _PubSubSink.project (WriteToPubSub._sink original) /\
    _PubSubSink.topic_name (WriteToPubSub._sink rebuilt)
    = _PubSubSink.topic_name (WriteToPubSub._sink original) /\
    WriteToPubSub.id_label rebuilt
    = Some (beam_runner_api_pb2.str_field (WriteToPubSub.id_label original)) /\
    WriteToPubSub.timestamp_attribute rebuilt
    = Some (beam_runner_api_pb2.str_field
              (WriteToPubSub.timestamp_attribute original)) /\
    WriteToPubSub._pubsub_write_payload rebuilt
    = WriteToPubSub._pubsub_write_payload original.
Proof.
  unfold WriteToPubSub.__init__, _PubSubSink.__init__.
  destruct (parse_topic topic) as [[p n]|e] eqn:Ep; [|discriminate].
  intros [= <-].
  unfold WriteToPubSub.from_runner_api_parameter,
    WriteToPubSub.to_runner_api_parameter, WriteToPubSub._pubsub_write_payload,
    WriteToPubSub.__init__, _PubSubSink.__init__.
  cbn. rewrite Ep. cbn. eexists. split; [reflexivity|]. cbn. repeat split.
Qed.

Lemma write_payload_round_trip_witness :
  exists rebuilt,
    WriteToPubSub.from_runner_api_parameter
      (PubSubWritePayload.mk "projects/my-project-1/topics/t" "" "id" true "" "c7")
    = Ok rebuilt /\
    WriteToPubSub.timestamp_attribute rebuilt = Some "".
Proof.
  destruct (write_payload_round_trip "projects/my-project-1/topics/t" true
              (Some "id") None "c7" _ eq_refl)
    as (rebuilt & H & _ & _ & _ & _ & _ & Hts & _).
  exists rebuilt. split; [exact H|exact Hts].
Defined.

Lemma source_init_one_address topic subscription il wa ts self :
  _PubSubSource.__init__ topic subscription il wa ts = Ok self ->
  (if_str topic = None /\ if_str subscription <> None) \/
  (if_str topic <> None /\ if_str subscription = None).
Proof.
  unfold _PubSubSource.__init__, truthy.
  destruct (if_str topic), (if_str subscription); cbn [negb orb andb];
    try discriminate; intros _; [right|left]; done.
Qed.

(** X18. A transform built from a read payload exports that payload again,
    with the serialized attribute function reset to the empty string. A
    transform can be built only from a payload with exactly one of the topic
    and the subscription not empty. *)
Theorem read_payload_rebuilt_exports
    (payload : beam_runner_api_pb2.PubSubReadPayload) (rd : ReadFromPubSub.t) :
  ReadFromPubSub.from_runner_api_parameter payload = Ok rd ->
  ReadFromPubSub._pubsub_read_payload rd
  = beam_runner_api_pb2.mkRead
      (beam_runner_api_pb2.topic payload)
      (beam_runner_api_pb2.subscription payload)
      (beam_runner_api_pb2.timestamp_attribute payload)
      (beam_runner_api_pb2.id_attribute payload)
      (beam_runner_api_pb2.with_attributes payload) "" /\
  ((beam_runner_api_pb2.topic payload = "" /\
    beam_runner_api_pb2.subscription payload <> "") \/
   (beam_runner_api_pb2.topic payload <> "" /\
    beam_runner_api_pb2.subscription payload = "")).
Proof.
  unfold ReadFromPubSub.from_runner_api_parameter. intros H. split.
  - apply read_init_fields in H as (Hwa & Ht & Hs & Hil & Hts).
    unfold ReadFromPubSub._pubsub_read_payload,
      beam_runner_api_pb2.new_PubSubReadPayload.
    by rewrite Hwa, Ht, Hs, Hil, Hts.
  - unfold ReadFromPubSub.__init__ in H.
    apply bind_Ok in H as (src & Hsrc & _).
    apply source_init_one_address in Hsrc. simpl in Hsrc.
    destruct (String.eqb_spec (beam_runner_api_pb2.topic payload) ""),
      (String.eqb_spec (beam_runner_api_pb2.subscription payload) "");
      destruct Hsrc as [[? ?]|[? ?]]; try done; [left|right]; done.
Qed.

Lemma read_payload_rebuilt_exports_witness :
  ReadFromPubSub._pubsub_read_payload
    (ReadFromPubSub.mk true
       (_PubSubSource.mk (Some "") (Some "projects/my-project-1/subscriptions/s")
          None (Some "s") (Some "id") true (Some "") (Some "my-project-1")))
  = beam_runner_api_pb2.mkRead "" "projects/my-project-1/subscriptions/s" "" "id"
      true "".
Proof.
  apply (read_payload_rebuilt_exports
           (beam_runner_api_pb2.mkRead "" "projects/my-project-1/subscriptions/s"
              "" "id" true "fn")).
  reflexivity.
Defined.
